(** * MIDI-Splitter: a shallow embedding of [split_midi]

    The development follows [midi_splitter.py].  A MIDI file is a list of
    tracks, every track a list of messages; [split_midi] walks all messages
    once, in order, and keeps the sixteen new tracks, the four parallel
    sixteen-entry lists [delta_ticks], [total_ticks], [instruments] and
    [active_channels], and the current [tempo].

    Python exceptions (an index out of range, [second2tick] dividing by a zero
    scale) are modelled in the [option] monad: [None] is a raised exception. *)

From Stdlib Require Import ZArith QArith String List Lia.
From Stdlib Require Import Ascii DecimalString DecimalZ DecimalPos.
From stdpp Require Import base tactics option list.

Local Open Scope string_scope.
Local Open Scope list_scope.
Local Open Scope Z_scope.

(** ** Messages *)

(** A mido message.  [is_meta] is [type(message) == MetaMessage]; [channel]
    is [None] when reading [message.channel] raises; [tempo] and [program]
    are read by the code only for [set_tempo] and [program_change]; [data]
    is the rest of the payload, which [split_midi] never looks at. *)
Module Message.
Record t : Type := Build {
  is_meta : bool;
  type : string;
  channel : option nat;
  time : Z;
  tempo : Z;
  program : Z;
  data : list Z
}.

(** [message.time = v] *)
Definition set_time (m : t) (v : Z) : t :=
  {| is_meta := is_meta m; type := type m; channel := channel m;
     time := v; tempo := tempo m; program := program m; data := data m |}.
End Message.

(** Events to ignore while splitting the MIDI file. *)
Definition IGNORE_MESSAGES_TYPE : list string :=
  ["text"; "lyrics"; "copyright"; "track_name"; "marker"; "cue_marker"].

(** [x in xs] on strings. *)
Definition str_in (x : string) (xs : list string) : bool :=
  existsb (String.eqb x) xs.

(** ** The state of one run *)

Record state : Type := State {
  new_tracks : list (list Message.t);
  delta_ticks : list Z;
  total_ticks : list Z;
  instruments : list Z;
  active_channels : list bool;
  tempo : Z
}.

(** Lines 24-43: sixteen empty tracks, zeroed counters, every channel on
    program 1, no channel active, tempo 500000. *)
Definition init_state : state :=
  {| new_tracks := replicate 16 [];
     delta_ticks := replicate 16 0;
     total_ticks := replicate 16 0;
     instruments := replicate 16 1;
     active_channels := replicate 16 false;
     tempo := 500000 |}.

(** [l[i] = v] on a Python list: raises when [i] is out of range. *)
Definition list_assign {A} (l : list A) (i : nat) (v : A) : option (list A) :=
  if decide (i < length l)%nat then Some (<[i := v]> l) else None.

(** Python truthiness of an optional integer argument ([if cutoff:]):
    [None] and [0] are false, every other integer is true. *)
Definition truthy (arg : option Z) : option Z :=
  match arg with
  | Some s => if s =? 0 then None else Some s
  | None => None
  end.

Section Splitter.

(** [mido.second2tick second ticks_per_beat tempo]: a library function, kept
    abstract here.  Its result is the number it denotes; [None] is an
    exception. *)
Variable second2tick : Z -> Z -> Z -> option Q.

(** The arguments of [split_midi] and the resolution of the source file. *)
Variables (trim_silence ignore_meta : bool) (cutoff offset : option Z).
Variable ticks_per_beat : Z.

(** Lines 63-70: a message without channel goes to all new tracks. *)
Definition replicate_message (st : state) (message : Message.t) : state :=
  {| new_tracks := (fun track => track ++ [message]) <$> new_tracks st;
     delta_ticks := delta_ticks st;
     total_ticks := total_ticks st;
     instruments := instruments st;
     active_channels := active_channels st;
     tempo := if String.eqb (Message.type message) "set_tempo"
              then Message.tempo message else tempo st |}.

(** Lines 101-104: is the message beyond the cutoff? *)
Definition past_cutoff (tempo_now total : Z) : option bool :=
  match truthy cutoff with
  | Some s =>
      cutoff_tick ← second2tick s ticks_per_beat tempo_now;
      Some (Qle_bool cutoff_tick (inject_Z total))
  | None => Some false
  end.

(** Lines 106-109: is the message before the offset? *)
Definition before_offset (tempo_now total : Z) : option bool :=
  match truthy offset with
  | Some s =>
      offset_tick ← second2tick s ticks_per_beat tempo_now;
      Some (Qle_bool (inject_Z total) offset_tick)
  | None => Some false
  end.

(** Lines 82-83: avoid long periods of silence. *)
Definition trimmed (new_time : Z) : Z :=
  if trim_silence && (10000 <? new_time) then 10000 else new_time.

(** Line 86: the time written into the message. *)
Definition corrected (active : bool) (new_time : Z) : Z :=
  if active || negb trim_silence then new_time else 0.

(** Lines 74-112: a message of channel [channel]. *)
Definition channel_message (st : state) (message : Message.t)
    (channel : nat) : option state :=
  delta ← delta_ticks st !! channel;
  let new_time := delta + Message.time message in
  let delta_ticks' :=
    <[channel := 0]>
      ((fun delta => delta + Message.time message) <$> delta_ticks st) in
  let new_time := trimmed new_time in
  active ← active_channels st !! channel;
  let message' := Message.set_time message (corrected active new_time) in
  let active_channels' :=
    if String.eqb (Message.type message) "note_on"
    then <[channel := true]> (active_channels st)
    else active_channels st in
  instruments' ←
    (if String.eqb (Message.type message) "program_change"
     then list_assign (instruments st) channel (Message.program message)
     else Some (instruments st));
  total ← total_ticks st !! channel;
  let total_ticks' := <[channel := total + new_time]> (total_ticks st) in
  let skipped :=
    {| new_tracks := new_tracks st;
       delta_ticks := delta_ticks';
       total_ticks := total_ticks';
       instruments := instruments';
       active_channels := active_channels';
       tempo := tempo st |} in
  late ← past_cutoff (tempo st) (total + new_time);
  if late : bool then Some skipped else
  early ← before_offset (tempo st) (total + new_time);
  if early : bool then Some skipped else
  track ← new_tracks st !! channel;
  Some {| new_tracks := <[channel := track ++ [message']]> (new_tracks st);
          delta_ticks := delta_ticks';
          total_ticks := total_ticks';
          instruments := instruments';
          active_channels := active_channels';
          tempo := tempo st |}.

(** Lines 52-54: the test that makes the loop skip a message. *)
Definition ignored (message : Message.t) : bool :=
  ignore_meta && Message.is_meta message
    && str_in (Message.type message) IGNORE_MESSAGES_TYPE.

(** Lines 50-112: the body of the inner loop. *)
Definition process_message (st : state) (message : Message.t)
    : option state :=
  if ignored message then Some st
  else match Message.channel message with
       | None => Some (replicate_message st message)
       | Some channel => channel_message st message channel
       end.

(** Lines 50-112: the inner loop, over one track. *)
Fixpoint process_track (st : state) (track : list Message.t)
    : option state :=
  match track with
  | [] => Some st
  | message :: rest =>
      st' ← process_message st message; process_track st' rest
  end.

(** Lines 47-112: the outer loop, over the tracks of the file. *)
Fixpoint process_tracks (st : state) (tracks : list (list Message.t))
    : option state :=
  match tracks with
  | [] => Some st
  | track :: rest =>
      st' ← process_track st track; process_tracks st' rest
  end.

End Splitter.

(** ** The file read and the files written *)

(** What [MidiFile(input_filename)] gives: the resolution and the tracks. *)
Module MidiFile.
Record t : Type := Build {
  ticks_per_beat : Z;
  tracks : list (list Message.t)
}.
End MidiFile.

(** One saved file (lines 131-137).  Its name is built from the instrument
    and the channel (and the name of the source file, the same for all files
    of a run); it holds the resolution of the source and a single track. *)
Record output_file : Type := OutputFile {
  file_instrument : Z;
  file_channel : nat;
  file_ticks_per_beat : Z;
  file_tracks : list (list Message.t)
}.

(** Lines 117-137: the loop that writes the new tracks, over the channels
    [channels]; tracks of channels that are not active are skipped. *)
Fixpoint write_files (st : state) (ticks_per_beat : Z) (channels : list nat)
    : option (list output_file) :=
  match channels with
  | [] => Some []
  | channel :: rest =>
      active ← active_channels st !! channel;
      if active : bool then
        instrument ← instruments st !! channel;
        track ← new_tracks st !! channel;
        files ← write_files st ticks_per_beat rest;
        Some ({| file_instrument := instrument;
                 file_channel := channel;
                 file_ticks_per_beat := ticks_per_beat;
                 file_tracks := [track] |} :: files)
      else write_files st ticks_per_beat rest
  end.

(** Lines 15-137.  The keys of [new_tracks] are its indices. *)
Definition split_midi (second2tick : Z -> Z -> Z -> option Q)
    (midi : MidiFile.t) (trim_silence ignore_meta : bool)
    (cutoff offset : option Z) : option (list output_file) :=
  st ← process_tracks second2tick trim_silence ignore_meta cutoff offset
         (MidiFile.ticks_per_beat midi) init_state (MidiFile.tracks midi);
  write_files st (MidiFile.ticks_per_beat midi)
    (seq 0 (length (new_tracks st))).

(** ** The conversion of seconds to ticks *)

Module Mido.
(** Modelled from the spec: [second2tick] belongs to the mido library and
    is not part of the source.  The spec gives the units: the tempo is in
    microseconds per quarter note and a quarter note has [ticks_per_beat]
    ticks, so one tick lasts [tempo * 10^-6 / ticks_per_beat] seconds, and
    [second] seconds are [second] divided by that scale.  The division is
    exact here; a zero scale or a zero resolution is a division by zero. *)
Definition second2tick (second ticks_per_beat tempo : Z) : option Q :=
  if (ticks_per_beat =? 0) || (tempo =? 0) then None
  else
    let scale := (inject_Z tempo * (1 # 1000000) / inject_Z ticks_per_beat)%Q in
    Some (inject_Z second / scale)%Q.
End Mido.

(** ** What the statements speak about *)

(** The sum of the [time] fields of a sequence of messages. *)
Definition sum_times (l : list Message.t) : Z :=
  foldr (fun m acc => Message.time m + acc) 0 l.

(** The messages of a file in the order [split_midi] reads them. *)
Definition stream (midi : MidiFile.t) : list Message.t :=
  concat (MidiFile.tracks midi).

(** Messages of a channel, and the two kinds the code looks for. *)
Definition has_channel (m : Message.t) : bool :=
  match Message.channel m with Some _ => true | None => false end.

Definition on_channel (c : nat) (m : Message.t) : bool :=
  match Message.channel m with Some c' => Nat.eqb c' c | None => false end.

Definition is_note_on (m : Message.t) : bool :=
  String.eqb (Message.type m) "note_on".

Definition is_program_change (m : Message.t) : bool :=
  String.eqb (Message.type m) "program_change".

(** The messages of [l] that the loop does not skip at lines 53-54. *)
Definition kept (ignore_meta : bool) (l : list Message.t) : list Message.t :=
  List.filter (fun m => negb (ignored ignore_meta m)) l.

(** The ticks that the messages of [l] add to the carry of a channel that
    none of them is on: the times of the channel messages read. *)
Definition carried (ignore_meta : bool) (l : list Message.t) : Z :=
  sum_times (List.filter has_channel (kept ignore_meta l)).

(** The five lists of a state have an entry for each of the 16 channels. *)
Definition sixteen (st : state) : Prop :=
  length (new_tracks st) = 16%nat /\ length (delta_ticks st) = 16%nat /\
  length (total_ticks st) = 16%nat /\ length (instruments st) = 16%nat /\
  length (active_channels st) = 16%nat.

(** The state after lines 75-99 for a message of channel [c], when the
    carry, the activity and the total of [c] were [delta], [active] and
    [total]: everything but the new tracks is updated. *)
Definition booked (trim_silence : bool) (st : state) (m : Message.t)
    (c : nat) (delta total : Z) : state :=
  {| new_tracks := new_tracks st;
     delta_ticks :=
       <[c := 0]> ((fun d => d + Message.time m) <$> delta_ticks st);
     total_ticks :=
       <[c := total + trimmed trim_silence (delta + Message.time m)]>
         (total_ticks st);
     instruments :=
       if is_program_change m
       then <[c := Message.program m]> (instruments st)
       else instruments st;
     active_channels :=
       if is_note_on m then <[c := true]> (active_channels st)
       else active_channels st;
     tempo := tempo st |}.

(** [st] with [m'] appended to the new track of channel [c]. *)
Definition appended (st : state) (c : nat) (track : list Message.t)
    (m' : Message.t) : state :=
  {| new_tracks := <[c := track ++ [m']]> (new_tracks st);
     delta_ticks := delta_ticks st;
     total_ticks := total_ticks st;
     instruments := instruments st;
     active_channels := active_channels st;
     tempo := tempo st |}.

(** The window tests as the specification words them.  The cutoff drops a
    message when it is given, with [cutoff_tick] its conversion at the
    tempo of the moment, and the total of the channel has reached it; the
    offset drops one when the total has not passed [offset_tick]. *)
Definition cutoff_drops (second2tick : Z -> Z -> Z -> option Q)
    (cutoff : option Z) (tpb tempo_now total : Z) : Prop :=
  exists s cutoff_tick,
    cutoff = Some s /\ second2tick s tpb tempo_now = Some cutoff_tick /\
    (cutoff_tick <= inject_Z total)%Q.

Definition cutoff_passes (second2tick : Z -> Z -> Z -> option Q)
    (cutoff : option Z) (tpb tempo_now total : Z) : Prop :=
  cutoff = None \/
  exists s cutoff_tick,
    cutoff = Some s /\ second2tick s tpb tempo_now = Some cutoff_tick /\
    ~ (cutoff_tick <= inject_Z total)%Q.

Definition offset_drops (second2tick : Z -> Z -> Z -> option Q)
    (offset : option Z) (tpb tempo_now total : Z) : Prop :=
  exists s offset_tick,
    offset = Some s /\ second2tick s tpb tempo_now = Some offset_tick /\
    (inject_Z total <= offset_tick)%Q.

Definition offset_passes (second2tick : Z -> Z -> Z -> option Q)
    (offset : option Z) (tpb tempo_now total : Z) : Prop :=
  offset = None \/
  exists s offset_tick,
    offset = Some s /\ second2tick s tpb tempo_now = Some offset_tick /\
    ~ (inject_Z total <= offset_tick)%Q.

(** An invariant of the loop under [trim_silence]: every channel message
    on a new track has a time of 10000 ticks at most. *)
Definition times_trimmed (st : state) : Prop :=
  forall c out m', new_tracks st !! c = Some out -> m' ∈ out ->
    has_channel m' = true -> Message.time m' <= 10000.

(** An invariant of the loop under [trim_silence] when no window is set:
    on every new track the first channel message has time 0, and a track
    without channel message belongs to a channel that is not active. *)
Definition starts_silent (st : state) : Prop :=
  forall c out, new_tracks st !! c = Some out ->
    (exists m', head (List.filter has_channel out) = Some m' /\
                Message.time m' = 0) \/
    (List.filter has_channel out = [] /\
     active_channels st !! c = Some false).

(** The absolute tick position of the [i]-th message of a sequence: the
    sum of the times up to and including it. *)
Definition tick_position (l : list Message.t) (i : nat) : Z :=
  sum_times (take (S i) l).

(** An invariant of the loop without [trim_silence] and without window: on
    every channel the times on the new track and the carry add up to the
    same clock [T]. *)
Definition on_clock (T : Z) (st : state) : Prop :=
  forall c out d, new_tracks st !! c = Some out ->
    delta_ticks st !! c = Some d -> sum_times out + d = T.


(** The program of the last [program_change] of channel [c] among [l], and
    [default] when there is none. *)
Definition last_program (c : nat) (l : list Message.t) (default : Z) : Z :=
  foldl (fun p m =>
           if on_channel c m && is_program_change m
           then Message.program m else p)
        default l.

(** Is there a note-on of channel [c] among [l]? *)
Definition has_note_on (c : nat) (l : list Message.t) : bool :=
  existsb (fun m => on_channel c m && is_note_on m) l.

(** The messages that concern the new track of channel [c]: those of [c]
    and those without channel. *)
Definition for_channel (c : nat) (m : Message.t) : bool :=
  negb (has_channel m) || on_channel c m.

(** A message with its time forgotten. *)
Definition untimed (m : Message.t) : Message.t := Message.set_time m 0.

Definition is_set_tempo (m : Message.t) : bool :=
  String.eqb (Message.type m) "set_tempo".

(** The test of line 120, on the state at the end of the loop. *)
Definition is_active (st : state) (c : nat) : bool :=
  match active_channels st !! c with Some true => true | _ => false end.

(** An invariant of the loop without [trim_silence], window or not: on every
    channel the total and the carry add up to the same clock [T]. *)
Definition on_total_clock (T : Z) (st : state) : Prop :=
  forall c total d, total_ticks st !! c = Some total ->
    delta_ticks st !! c = Some d -> total + d = T.

(** Messages as mido builds them, for the worked cases below: a channel
    message of a given type, channel and time, and a meta message. *)
Definition channel_msg (type : string) (c : nat) (time : Z) : Message.t :=
  {| Message.is_meta := false; Message.type := type;
     Message.channel := Some c; Message.time := time;
     Message.tempo := 0; Message.program := 0; Message.data := [] |}.

Definition meta_msg (type : string) (time tempo : Z) : Message.t :=
  {| Message.is_meta := true; Message.type := type;
     Message.channel := None; Message.time := time;
     Message.tempo := tempo; Message.program := 0; Message.data := [] |}.

(** ** The names and the places of the files *)

(** An integer as [str.format] prints it. *)
Definition str_of_Z (n : Z) : string :=
  NilZero.string_of_int (Z.to_int n).

(** [name[0:-4]]: the name without its last four characters, and the empty
    string when it has no more than four. *)
Definition drop_last_four (name : string) : string :=
  substring 0 (String.length name - 4) name.

(** Line 131: the name of the file of a channel; [name] is
    [basename(input_filename)]. *)
Definition output_name (instrument : Z) (channel : nat) (name : string)
    : string :=
  (str_of_Z instrument ++ "_ch" ++ str_of_Z (Z.of_nat channel) ++ "_"
   ++ drop_last_four name ++ ".mid")%string.

(** The values of the dictionary of line 126 are two integers and a
    string. *)
Inductive py_value : Type :=
  | PyInt (n : Z)
  | PyStr (s : string).

(** Line 126-127: [dir_name[split_dir]]; a key that the dictionary does not
    have raises. *)
Definition dir_name (instrument : Z) (channel : nat) (name : string)
    (split_dir : string) : option py_value :=
  if String.eqb split_dir "instrument" then Some (PyInt instrument)
  else if String.eqb split_dir "channel" then Some (PyInt (Z.of_nat channel))
  else if String.eqb split_dir "file" then Some (PyStr (drop_last_four name))
  else None.

(** [if split_dir:] is false for [None] and for the empty string. *)
Definition truthy_str (arg : option string) : option string :=
  match arg with
  | Some s => if String.eqb s "" then None else Some s
  | None => None
  end.

Section Saving.

(** The file system and the three operations on it that the loop uses, and
    [os.path.join] on two strings, are kept abstract. *)
Variable fs : Type.
Variable isdir : fs -> string -> bool.
Variable mkdir : fs -> string -> option fs.
Variable save : fs -> string -> output_file -> option fs.
Variable join : string -> string -> string.

(** [join(output_dir, value)]: [os.path.join] raises on an integer. *)
Definition join_value (output_dir : string) (value : py_value)
    : option string :=
  match value with
  | PyStr s => Some (join output_dir s)
  | PyInt _ => None
  end.

(** Lines 124-129: the folder of the file of a channel, made if it is not
    there. *)
Definition place (st : state) (output_dir name : string)
    (split_dir : option string) (disk : fs) (channel : nat)
    : option (string * fs) :=
  match truthy_str split_dir with
  | Some key =>
      instrument ← instruments st !! channel;
      value ← dir_name instrument channel name key;
      output_folder ← join_value output_dir value;
      disk' ← (if isdir disk output_folder then Some disk
               else mkdir disk output_folder);
      Some (output_folder, disk')
  | None => Some (output_dir, disk)
  end.

(** Lines 117-137, with the folders and the names. *)
Fixpoint save_files (st : state) (ticks_per_beat : Z)
    (output_dir name : string) (split_dir : option string) (disk : fs)
    (channels : list nat) : option fs :=
  match channels with
  | [] => Some disk
  | channel :: rest =>
      active ← active_channels st !! channel;
      if active : bool then
        placed ← place st output_dir name split_dir disk channel;
        instrument ← instruments st !! channel;
        let output_filename :=
          join (fst placed) (output_name instrument channel name) in
        track ← new_tracks st !! channel;
        disk' ← save (snd placed) output_filename
                  {| file_instrument := instrument;
                     file_channel := channel;
                     file_ticks_per_beat := ticks_per_beat;
                     file_tracks := [track] |};
        save_files st ticks_per_beat output_dir name split_dir disk' rest
      else
        save_files st ticks_per_beat output_dir name split_dir disk rest
  end.

(** Lines 15-137: [split_midi] with its effect on the file system; [name]
    is [basename(input_filename)]. *)
Definition split_midi_to_disk (second2tick : Z -> Z -> Z -> option Q)
    (midi : MidiFile.t) (name output_dir : string)
    (trim_silence ignore_meta : bool) (split_dir : option string)
    (cutoff offset : option Z) (disk : fs) : option fs :=
  st ← process_tracks second2tick trim_silence ignore_meta cutoff offset
         (MidiFile.ticks_per_beat midi) init_state (MidiFile.tracks midi);
  save_files st (MidiFile.ticks_per_beat midi) output_dir name split_dir
    disk (seq 0 (length (new_tracks st))).

(** Saving a list of files one after the other in the folder [folder],
    each under its name. *)
Fixpoint save_all (folder name : string) (disk : fs)
    (files : list output_file) : option fs :=
  match files with
  | [] => Some disk
  | f :: rest =>
      disk' ← save disk
                (join folder
                   (output_name (file_instrument f) (file_channel f) name))
                f;
      save_all folder name disk' rest
  end.

End Saving.

(** A file system for the worked cases: the folders that exist and the
    files saved so far, with their paths, in the order they were saved. *)
Module Disk.
Record t : Type := Build {
  dirs : list string;
  saved : list (string * output_file)
}.

Definition isdir (d : t) (path : string) : bool :=
  existsb (String.eqb path) (dirs d).

Definition mkdir (d : t) (path : string) : option t :=
  if isdir d path then None
  else Some {| dirs := path :: dirs d; saved := saved d |}.

Definition save (d : t) (path : string) (f : output_file) : option t :=
  Some {| dirs := dirs d; saved := saved d ++ [(path, f)] |}.

Definition join (a b : string) : string := (a ++ "/" ++ b)%string.
End Disk.

(** ** Sums of times *)

Lemma sum_times_cons m l : sum_times (m :: l) = Message.time m + sum_times l.
Proof. reflexivity. Qed.

Lemma sum_times_app l1 l2 :
  sum_times (l1 ++ l2) = sum_times l1 + sum_times l2.
Proof.
  induction l1 as [|m l1 IH]; [reflexivity|].
  cbn [app]. rewrite !sum_times_cons, IH. lia.
Qed.

Lemma sum_times_snoc l m :
  sum_times (l ++ [m]) = sum_times l + Message.time m.
Proof. rewrite sum_times_app, sum_times_cons. cbn. lia. Qed.

(** ** One message *)

Section Step.

Variable second2tick : Z -> Z -> Z -> option Q.
Variables (trim_silence ignore_meta : bool) (cutoff offset : option Z).
Variable ticks_per_beat : Z.

Abbreviation channel_step :=
  (channel_message second2tick trim_silence cutoff offset ticks_per_beat).
Abbreviation step :=
  (process_message second2tick trim_silence ignore_meta cutoff offset
     ticks_per_beat).

(** Whatever the window decides, a message of channel [c] leaves the
    booked state, with or without the message on the new track of [c]. *)
Lemma channel_message_inv st m c st' :
  channel_step st m c = Some st' ->
  exists delta active total,
    delta_ticks st !! c = Some delta /\
    active_channels st !! c = Some active /\
    total_ticks st !! c = Some total /\
    (st' = booked trim_silence st m c delta total \/
     exists track,
       new_tracks st !! c = Some track /\
       st' = appended (booked trim_silence st m c delta total) c track
               (Message.set_time m
                  (corrected trim_silence active
                     (trimmed trim_silence (delta + Message.time m))))).
Proof.
  unfold channel_message, booked, appended, is_program_change, is_note_on,
    list_assign.
  intros H.
  destruct (delta_ticks st !! c) as [delta|]; [|discriminate].
  destruct (active_channels st !! c) as [active|]; [|discriminate].
  exists delta, active. cbn [mbind option_bind] in H.
  destruct (total_ticks st !! c) as [total|] eqn:Htotal.
  2:{ destruct (String.eqb _ "program_change"); [case_decide|];
      cbn in H; rewrite ?Htotal in H; discriminate. }
  exists total. split_and!; try reflexivity.
  destruct (String.eqb (Message.type m) "program_change");
    [case_decide; [|discriminate]|]; cbn [mbind option_bind] in H;
    rewrite ?Htotal in H; cbn [mbind option_bind] in H.
  all: destruct (past_cutoff _ _ _ _ _) as [[]|]; cbn in H;
    [left; congruence| |discriminate].
  all: destruct (before_offset _ _ _ _ _) as [[]|]; cbn in H;
    [left; congruence| |discriminate].
  all: destruct (new_tracks st !! c) as [track|]; [|discriminate].
  all: right; exists track; split; [reflexivity|].
  all: injection H as <-; reflexivity.
Qed.

(** The other direction: on a state that has entries for [c], the result
    is decided by the two window tests alone. *)
Lemma channel_message_eq st m c delta active total track :
  delta_ticks st !! c = Some delta ->
  active_channels st !! c = Some active ->
  total_ticks st !! c = Some total ->
  new_tracks st !! c = Some track ->
  (c < length (instruments st))%nat ->
  let new_time := trimmed trim_silence (delta + Message.time m) in
  let st1 := booked trim_silence st m c delta total in
  channel_step st m c =
    late ← past_cutoff second2tick cutoff ticks_per_beat (tempo st)
             (total + new_time);
    if late : bool then Some st1 else
    early ← before_offset second2tick offset ticks_per_beat (tempo st)
              (total + new_time);
    if early : bool then Some st1 else
    Some (appended st1 c track
            (Message.set_time m (corrected trim_silence active new_time))).
Proof.
  intros Hd Ha Ht Hn Hi.
  unfold channel_message, booked, appended, is_program_change, is_note_on,
    list_assign.
  rewrite Hd, Ha. cbn [mbind option_bind].
  destruct (String.eqb (Message.type m) "program_change");
    [rewrite decide_True by assumption|]; cbn [mbind option_bind];
    rewrite Ht; cbn [mbind option_bind].
  all: destruct (past_cutoff _ _ _ _ _) as [[]|]; cbn; try reflexivity.
  all: destruct (before_offset _ _ _ _ _) as [[]|]; cbn; try reflexivity.
  all: rewrite Hn; reflexivity.
Qed.



(** Without a window every channel message is appended. *)
Lemma channel_message_no_window st m c st' :
  truthy cutoff = None -> truthy offset = None ->
  channel_step st m c = Some st' ->
  exists delta active total track,
    delta_ticks st !! c = Some delta /\
    active_channels st !! c = Some active /\
    total_ticks st !! c = Some total /\
    new_tracks st !! c = Some track /\
    st' = appended (booked trim_silence st m c delta total) c track
            (Message.set_time m
               (corrected trim_silence active
                  (trimmed trim_silence (delta + Message.time m)))).
Proof.
  intros Hc Ho H.
  destruct (channel_message_inv st m c st' H)
    as (delta & active & total & Hd & Ha & Ht & _).
  exists delta, active, total.
  unfold channel_message, past_cutoff, before_offset in H.
  rewrite Hc, Ho, Hd, Ha in H. cbn [mbind option_bind] in H.
  unfold booked, appended, is_program_change, is_note_on.
  unfold list_assign in H.
  destruct (String.eqb (Message.type m) "program_change");
    [case_decide; [|discriminate]|]; cbn [mbind option_bind] in H;
    rewrite Ht in H; cbn [mbind option_bind] in H.
  all: destruct (new_tracks st !! c) as [track|]; [|discriminate].
  all: exists track; split_and!; try assumption; try reflexivity.
  all: injection H as <-; reflexivity.
Qed.

(** The three ways through the body of the loop. *)
Lemma process_message_inv st m st' :
  step st m = Some st' ->
  (ignored ignore_meta m = true /\ st' = st) \/
  (ignored ignore_meta m = false /\ Message.channel m = None /\
   st' = replicate_message st m) \/
  (ignored ignore_meta m = false /\
   exists c, Message.channel m = Some c /\ channel_step st m c = Some st').
Proof.
  unfold process_message. intros H.
  destruct (ignored ignore_meta m); [left; split; congruence|].
  destruct (Message.channel m) as [c|].
  - right; right. split; [reflexivity|]. exists c.
    split; [reflexivity|assumption].
  - right; left. split_and!; congruence.
Qed.

Lemma process_message_ignored st m :
  ignored ignore_meta m = true -> step st m = Some st.
Proof. unfold process_message. intros ->. reflexivity. Qed.

Lemma process_message_global st m :
  ignored ignore_meta m = false -> Message.channel m = None ->
  step st m = Some (replicate_message st m).
Proof. unfold process_message. intros -> ->. reflexivity. Qed.

Lemma process_message_channel st m c :
  ignored ignore_meta m = false -> Message.channel m = Some c ->
  step st m = channel_step st m c.
Proof. unfold process_message. intros -> ->. reflexivity. Qed.

(** Every message keeps the sixteen entries of every part of the state. *)
Lemma process_message_sixteen st m st' :
  sixteen st -> step st m = Some st' -> sixteen st'.
Proof.
  intros (Hn & Hd & Ht & Hi & Ha) H.
  apply process_message_inv in H as [[_ ->]|[(_ & _ & ->)|(_ & c & _ & H)]].
  - repeat split; assumption.
  - repeat split; cbn; rewrite ?length_fmap; assumption.
  - apply channel_message_inv in H
      as (delta & active & total & _ & _ & _ & [->|(track & _ & ->)]).
    all: unfold sixteen, appended, booked; cbn.
    all: destruct (is_program_change m), (is_note_on m).
    all: rewrite ?length_insert, ?length_fmap; repeat split; assumption.
Qed.

(** On a sixteen-entry state a message can only fail in [second2tick] or
    on a channel that does not exist. *)
Lemma process_message_total st m :
  sixteen st ->
  (forall c, Message.channel m = Some c -> (c < 16)%nat) ->
  (forall s tempo_now, is_Some (second2tick s ticks_per_beat tempo_now)) ->
  is_Some (step st m).
Proof.
  intros (Hn & Hd & Ht & Hi & Ha) Hc Hs. unfold process_message.
  destruct (ignored ignore_meta m); [eexists; reflexivity|].
  destruct (Message.channel m) as [c|]; [|eexists; reflexivity].
  specialize (Hc c eq_refl).
  destruct (lookup_lt_is_Some_2 (delta_ticks st) c) as [delta Hdelta]; [lia|].
  destruct (lookup_lt_is_Some_2 (active_channels st) c) as [active Hactive];
    [lia|].
  destruct (lookup_lt_is_Some_2 (total_ticks st) c) as [total Htotal]; [lia|].
  destruct (lookup_lt_is_Some_2 (new_tracks st) c) as [track Htrack]; [lia|].
  rewrite (channel_message_eq st m c delta active total track)
    by (assumption || lia).
  unfold past_cutoff, before_offset.
  destruct (truthy cutoff) as [s|].
  - destruct (Hs s (tempo st)) as [q ->]. cbn.
    destruct (Qle_bool q _); [eexists; reflexivity|].
    destruct (truthy offset) as [s'|]; [|eexists; reflexivity].
    destruct (Hs s' (tempo st)) as [q' ->]. cbn.
    destruct (Qle_bool _ q'); eexists; reflexivity.
  - cbn. destruct (truthy offset) as [s'|]; [|eexists; reflexivity].
    destruct (Hs s' (tempo st)) as [q' ->]. cbn.
    destruct (Qle_bool _ q'); eexists; reflexivity.
Qed.

End Step.

(** ** A whole run *)

Lemma init_state_sixteen : sixteen init_state.
Proof. repeat split. Qed.

Section Run.

Variable second2tick : Z -> Z -> Z -> option Q.
Variables (trim_silence ignore_meta : bool) (cutoff offset : option Z).
Variable ticks_per_beat : Z.

Abbreviation step' :=
  (process_message second2tick trim_silence ignore_meta cutoff offset
     ticks_per_beat).
Abbreviation run :=
  (process_track second2tick trim_silence ignore_meta cutoff offset
     ticks_per_beat).
Abbreviation run_tracks :=
  (process_tracks second2tick trim_silence ignore_meta cutoff offset
     ticks_per_beat).

Lemma process_track_app st l1 l2 :
  run st (l1 ++ l2) = st1 ← run st l1; run st1 l2.
Proof.
  revert st. induction l1 as [|m l1 IH]; intros st; [reflexivity|].
  cbn. destruct (step' st m) as [st1|]; [apply IH|reflexivity].
Qed.

(** The two loops read the tracks as one sequence of messages. *)
Lemma process_tracks_concat st tracks :
  run_tracks st tracks = run st (concat tracks).
Proof.
  revert st. induction tracks as [|track tracks IH]; intros st;
    [reflexivity|].
  cbn. rewrite process_track_app.
  destruct (run st track) as [st1|]; [apply IH|reflexivity].
Qed.

(** Splitting a run at one message. *)
Lemma process_track_split st pre m post st' :
  run st (pre ++ m :: post) = Some st' ->
  exists st_pre st_m,
    run st pre = Some st_pre /\ step' st_pre m = Some st_m /\
    run st_m post = Some st'.
Proof.
  rewrite process_track_app. intros H.
  destruct (run st pre) as [st_pre|]; [|discriminate].
  cbn in H. destruct (step' st_pre m) as [st_m|] eqn:Hm; [|discriminate].
  exists st_pre, st_m. repeat split; assumption.
Qed.

(** An invariant of the state that every message keeps holds after the
    run. *)
Lemma process_track_ind (P : state -> Prop) :
  (forall st m st', P st -> step' st m = Some st' -> P st') ->
  forall l st st', P st -> run st l = Some st' -> P st'.
Proof.
  intros Hstep. induction l as [|m l IH]; intros st st' HP H; cbn in H.
  - congruence.
  - destruct (step' st m) as [st1|] eqn:Hm; [|discriminate].
    exact (IH st1 st' (Hstep st m st1 HP Hm) H).
Qed.

Lemma process_track_sixteen st l st' :
  sixteen st -> run st l = Some st' -> sixteen st'.
Proof.
  apply process_track_ind. intros st0 m st1 H16 Hm.
  exact (process_message_sixteen _ _ _ _ _ _ _ _ _ H16 Hm).
Qed.

(** The run raises nothing when the channels are between 0 and 15 and
    [second2tick] raises nothing. *)
Lemma process_track_total l st :
  sixteen st ->
  Forall (fun m => forall c, Message.channel m = Some c -> (c < 16)%nat) l ->
  (forall s tempo_now, is_Some (second2tick s ticks_per_beat tempo_now)) ->
  is_Some (run st l).
Proof.
  intros H16 Hl Hs. revert st H16.
  induction Hl as [|m l Hm _ IH]; intros st H16; [eexists; reflexivity|].
  destruct (process_message_total second2tick trim_silence ignore_meta
              cutoff offset ticks_per_beat st m H16 Hm Hs) as [st1 Hst1].
  cbn. rewrite Hst1. cbn. apply IH.
  exact (process_message_sixteen _ _ _ _ _ _ _ _ _ H16 Hst1).
Qed.

(** What one message adds to the new track of channel [c]. *)
Lemma process_message_grows st m st' c track :
  step' st m = Some st' ->
  new_tracks st !! c = Some track ->
  exists ext, new_tracks st' !! c = Some (track ++ ext).
Proof.
  intros H Hc.
  apply process_message_inv in H as [[_ ->]|[(_ & _ & ->)|(_ & c' & _ & H)]].
  - exists []. rewrite app_nil_r. assumption.
  - exists [m]. cbn. rewrite list_lookup_fmap, Hc. reflexivity.
  - apply channel_message_inv in H
      as (delta & active & total & _ & _ & _ & [->|(track' & Hc' & ->)]).
    + exists []. rewrite app_nil_r. assumption.
    + cbn. destruct (decide (c' = c)) as [->|Hne].
      * rewrite Hc in Hc'. injection Hc' as <-.
        eexists. rewrite list_lookup_insert_eq; [reflexivity|].
        eapply lookup_lt_Some; eassumption.
      * exists []. rewrite app_nil_r, list_lookup_insert_ne; assumption.
Qed.

(** The new tracks only grow at their end. *)
Lemma process_track_grows l st st' c track :
  run st l = Some st' ->
  new_tracks st !! c = Some track ->
  exists ext, new_tracks st' !! c = Some (track ++ ext).
Proof.
  revert st track. induction l as [|m l IH]; intros st track H Hc; cbn in H.
  - injection H as <-. exists []. rewrite app_nil_r. assumption.
  - destruct (step' st m) as [st1|] eqn:Hm; [|discriminate].
    destruct (process_message_grows _ _ _ _ _ Hm Hc) as [ext1 H1].
    destruct (IH _ _ H H1) as [ext2 H2].
    exists (ext1 ++ ext2). rewrite H2, app_assoc. reflexivity.
Qed.



(** Messages that are not on channel [c] add their times to its carry,
    the channel messages among them that is. *)
Lemma process_message_carry st m st' c delta :
  on_channel c m = false ->
  step' st m = Some st' ->
  delta_ticks st !! c = Some delta ->
  delta_ticks st' !! c = Some (delta + carried ignore_meta [m]).
Proof.
  intros Hoff H Hd. unfold carried, kept. cbn.
  apply process_message_inv in H
    as [[Hi ->]|[(Hi & Hg & ->)|(Hi & c' & Hc' & H)]]; rewrite Hi; cbn.
  - rewrite Z.add_0_r. assumption.
  - unfold has_channel. rewrite Hg. cbn. rewrite Z.add_0_r. assumption.
  - unfold has_channel. rewrite Hc'. cbn. rewrite Z.add_0_r.
    assert (c' <> c) as Hne.
    { intros ->. unfold on_channel in Hoff. rewrite Hc' in Hoff.
      rewrite Nat.eqb_refl in Hoff. discriminate. }
    apply channel_message_inv in H
      as (d' & active & total & _ & _ & _ & [->|(track' & _ & ->)]).
    all: cbn; rewrite list_lookup_insert_ne by assumption.
    all: rewrite list_lookup_fmap, Hd; reflexivity.
Qed.

Lemma carried_cons m l :
  carried ignore_meta (m :: l)
  = carried ignore_meta [m] + carried ignore_meta l.
Proof.
  unfold carried, kept. cbn.
  destruct (negb (ignored ignore_meta m)); cbn; [|reflexivity].
  destruct (has_channel m); unfold sum_times; cbn; lia.
Qed.

Lemma process_track_carry l st st' c delta :
  Forall (fun m => on_channel c m = false) l ->
  run st l = Some st' ->
  delta_ticks st !! c = Some delta ->
  delta_ticks st' !! c = Some (delta + carried ignore_meta l).
Proof.
  intros Hl. revert st delta.
  induction Hl as [|m l Hm _ IH]; intros st delta H Hd; cbn in H.
  - injection H as <-. unfold carried. cbn. rewrite Z.add_0_r. assumption.
  - destruct (step' st m) as [st1|] eqn:Hst1; [|discriminate].
    rewrite carried_cons, Z.add_assoc.
    apply (IH st1); [assumption|].
    exact (process_message_carry _ _ _ _ _ Hm Hst1 Hd).
Qed.

(** A channel message leaves a zero carry on its channel. *)
Lemma channel_message_resets st m c st' :
  channel_message second2tick trim_silence cutoff offset ticks_per_beat
    st m c = Some st' ->
  delta_ticks st' !! c = Some 0.
Proof.
  intros H. apply channel_message_inv in H
    as (delta & active & total & Hd & _ & _ & [->|(track' & _ & ->)]).
  all: cbn; rewrite list_lookup_insert_eq; [reflexivity|].
  all: rewrite length_fmap; eapply lookup_lt_Some; eassumption.
Qed.

(** The time a message of channel [c] is appended with, if it is. *)
Lemma process_message_emits st m c st' delta active track :
  ignored ignore_meta m = false ->
  Message.channel m = Some c ->
  step' st m = Some st' ->
  delta_ticks st !! c = Some delta ->
  active_channels st !! c = Some active ->
  new_tracks st !! c = Some track ->
  new_tracks st' !! c = Some track \/
  new_tracks st' !! c
  = Some (track ++ [Message.set_time m
                      (corrected trim_silence active
                         (trimmed trim_silence (delta + Message.time m)))]).
Proof.
  intros Hi Hc H Hd Ha Hn.
  rewrite (process_message_channel _ _ _ _ _ _ _ _ c Hi Hc) in H.
  apply channel_message_inv in H
    as (d' & a' & total & Hd' & Ha' & _ & [->|(track' & Hn' & ->)]).
  - left. assumption.
  - right. cbn. rewrite Hd in Hd'. rewrite Ha in Ha'. rewrite Hn in Hn'.
    injection Hd' as <-. injection Ha' as <-. injection Hn' as <-.
    rewrite list_lookup_insert_eq; [reflexivity|].
    eapply lookup_lt_Some; eassumption.
Qed.

End Run.

(** ** The files written *)

Lemma write_files_total st tpb channels :
  sixteen st -> Forall (fun c => (c < 16)%nat) channels ->
  is_Some (write_files st tpb channels).
Proof.
  intros (Hn & _ & _ & Hi & Ha) Hcs.
  induction Hcs as [|c channels Hc _ [files IH]]; [eexists; reflexivity|].
  destruct (lookup_lt_is_Some_2 (active_channels st) c) as [active Hactive];
    [lia|].
  destruct (lookup_lt_is_Some_2 (instruments st) c) as [instrument Hinstr];
    [lia|].
  destruct (lookup_lt_is_Some_2 (new_tracks st) c) as [track Htrack]; [lia|].
  cbn. rewrite Hactive. cbn. destruct active; [|eexists; exact IH].
  rewrite Hinstr, Htrack, IH. eexists; reflexivity.
Qed.


(** Every file written is the file of an active channel among [channels]. *)
Lemma write_files_only_active st tpb channels files f :
  write_files st tpb channels = Some files ->
  f ∈ files ->
  file_channel f ∈ channels /\
  active_channels st !! file_channel f = Some true /\
  instruments st !! file_channel f = Some (file_instrument f) /\
  (exists track,
     new_tracks st !! file_channel f = Some track /\
     file_tracks f = [track]) /\
  file_ticks_per_beat f = tpb.
Proof.
  revert files. induction channels as [|c channels IH]; intros files H Hf.
  - injection H as <-. inversion Hf.
  - cbn in H.
    destruct (active_channels st !! c) as [[]|] eqn:Ha; cbn in H;
      [|destruct (IH _ H Hf) as (? & ?); split; [apply elem_of_cons; tauto|assumption]
       |discriminate].
    destruct (instruments st !! c) as [instrument|] eqn:Hi; [|discriminate].
    destruct (new_tracks st !! c) as [track|] eqn:Hn; [|discriminate].
    cbn in H.
    destruct (write_files st tpb channels) as [files'|]; [|discriminate].
    injection H as <-. apply elem_of_cons in Hf as [->|Hf].
    + cbn. split; [apply elem_of_cons; tauto|].
      split_and!; try assumption; try reflexivity.
      exists track. split; [assumption|reflexivity].
    + destruct (IH _ eq_refl Hf) as (? & ?).
      split; [apply elem_of_cons; tauto|assumption].
Qed.

(** ** The claims *)

(** C3.  A message of channel [c] that the loop reads leaves the carry
    [delta_ticks[c]] at zero, whether the window then keeps it or drops it
    (nothing is assumed on that).  So the carry that the next message of [c]
    starts from holds the times of the channel messages read in between and
    nothing of the time of the first message: if that one was dropped, its
    interval is lost for the time the next one is appended with. *)
Theorem dropped_interval_not_carried
    (second2tick : Z -> Z -> Z -> option Q)
    (trim_silence ignore_meta : bool) (cutoff offset : option Z)
    (ticks_per_beat : Z) (st : state) (m : Message.t) (c : nat)
    (st' : state) :
  ignored ignore_meta m = false ->
  Message.channel m = Some c ->
  process_message second2tick trim_silence ignore_meta cutoff offset
    ticks_per_beat st m = Some st' ->
  delta_ticks st' !! c = Some 0 /\
  forall between st2,
    Forall (fun x => on_channel c x = false) between ->
    process_track second2tick trim_silence ignore_meta cutoff offset
      ticks_per_beat st' between = Some st2 ->
    delta_ticks st2 !! c = Some (carried ignore_meta between) /\
    forall m2 st3 active track,
      ignored ignore_meta m2 = false ->
      Message.channel m2 = Some c ->
      process_message second2tick trim_silence ignore_meta cutoff offset
        ticks_per_beat st2 m2 = Some st3 ->
      active_channels st2 !! c = Some active ->
      new_tracks st2 !! c = Some track ->
      new_tracks st3 !! c = Some track \/
      new_tracks st3 !! c
      = Some (track ++
                [Message.set_time m2
                   (corrected trim_silence active
                      (trimmed trim_silence
                         (carried ignore_meta between + Message.time m2)))]).
Proof.
  intros Hi Hc H.
  rewrite (process_message_channel _ _ _ _ _ _ _ _ c Hi Hc) in H.
  pose proof (channel_message_resets _ _ _ _ _ _ _ _ _ H) as Hzero.
  split; [assumption|].
  intros between st2 Hoff Hrun.
  pose proof (process_track_carry _ _ _ _ _ _ _ _ _ _ _ Hoff Hrun Hzero)
    as Hcarry.
  rewrite Z.add_0_l in Hcarry. split; [assumption|].
  intros m2 st3 active track Hi2 Hc2 H2 Ha Hn.
  exact (process_message_emits _ _ _ _ _ _ _ _ _ _ _ _ _ Hi2 Hc2 H2
           Hcarry Ha Hn).
Qed.

Lemma dropped_interval_not_carried_witness :
  let m := channel_msg "note_on" 0 500 in
  let st' := booked false init_state m 0 0 0 in
  (ignored false m = false /\ Message.channel m = Some 0%nat /\
   process_message Mido.second2tick false false None (Some 2) 480
     init_state m = Some st') /\
  new_tracks st' = new_tracks init_state /\
  delta_ticks st' !! 0%nat = Some 0.
Proof.
  cbv zeta. split; [repeat split; vm_compute; reflexivity|].
  split; [reflexivity|].
  refine (proj1 (dropped_interval_not_carried Mido.second2tick false false
                   None (Some 2) 480 init_state
                   (channel_msg "note_on" 0 500) 0%nat _ _ _ _)).
  - reflexivity.
  - reflexivity.
  - vm_compute. reflexivity.
Defined.

(** C10.  A cutoff of 0 seconds, and an offset of 0 seconds, is the same as
    none: the test on it never drops a message, and the run and the files
    written are those of the run without that argument. *)
Theorem zero_seconds_is_no_window
    (second2tick : Z -> Z -> Z -> option Q)
    (trim_silence ignore_meta : bool) (cutoff offset : option Z)
    (midi : MidiFile.t) :
  ((forall tpb tempo_now total,
      past_cutoff second2tick (Some 0) tpb tempo_now total = Some false) /\
   (forall tpb st tracks,
      process_tracks second2tick trim_silence ignore_meta (Some 0) offset
        tpb st tracks
      = process_tracks second2tick trim_silence ignore_meta None offset
          tpb st tracks) /\
   split_midi second2tick midi trim_silence ignore_meta (Some 0) offset
   = split_midi second2tick midi trim_silence ignore_meta None offset) /\
  ((forall tpb tempo_now total,
      before_offset second2tick (Some 0) tpb tempo_now total = Some false) /\
   (forall tpb st tracks,
      process_tracks second2tick trim_silence ignore_meta cutoff (Some 0)
        tpb st tracks
      = process_tracks second2tick trim_silence ignore_meta cutoff None
          tpb st tracks) /\
   split_midi second2tick midi trim_silence ignore_meta cutoff (Some 0)
   = split_midi second2tick midi trim_silence ignore_meta cutoff None).
Proof.
  assert (forall off tpb st m,
            process_message second2tick trim_silence ignore_meta (Some 0) off
              tpb st m
            = process_message second2tick trim_silence ignore_meta None off
                tpb st m) as Hcut by reflexivity.
  assert (forall cut tpb st m,
            process_message second2tick trim_silence ignore_meta cut (Some 0)
              tpb st m
            = process_message second2tick trim_silence ignore_meta cut None
                tpb st m) as Hoff by reflexivity.
  assert (forall off tpb l st,
            process_track second2tick trim_silence ignore_meta (Some 0) off
              tpb st l
            = process_track second2tick trim_silence ignore_meta None off
                tpb st l) as Hcut1.
  { intros off tpb. induction l as [|m l IH]; intros st; [reflexivity|].
    cbn. rewrite Hcut.
    destruct (process_message _ _ _ None _ _ _ _); [apply IH|reflexivity]. }
  assert (forall cut tpb l st,
            process_track second2tick trim_silence ignore_meta cut (Some 0)
              tpb st l
            = process_track second2tick trim_silence ignore_meta cut None
                tpb st l) as Hoff1.
  { intros cut tpb. induction l as [|m l IH]; intros st; [reflexivity|].
    cbn. rewrite Hoff.
    destruct (process_message _ _ _ _ None _ _ _); [apply IH|reflexivity]. }
  assert (forall off tpb st tracks,
            process_tracks second2tick trim_silence ignore_meta (Some 0) off
              tpb st tracks
            = process_tracks second2tick trim_silence ignore_meta None off
                tpb st tracks) as Hcut2.
  { intros. rewrite !process_tracks_concat. apply Hcut1. }
  assert (forall cut tpb st tracks,
            process_tracks second2tick trim_silence ignore_meta cut (Some 0)
              tpb st tracks
            = process_tracks second2tick trim_silence ignore_meta cut None
                tpb st tracks) as Hoff2.
  { intros. rewrite !process_tracks_concat. apply Hoff1. }
  split; (split; [reflexivity|]); (split; [trivial|]); unfold split_midi.
  - rewrite Hcut2. reflexivity.
  - rewrite Hoff2. reflexivity.
Qed.



(** ** The window *)

Lemma truthy_given (arg : option Z) : arg <> Some 0 -> truthy arg = arg.
Proof.
  destruct arg as [s|]; [|reflexivity]. intros Hs. cbn.
  destruct (Z.eqb_spec s 0) as [->|_]; [congruence|reflexivity].
Qed.

Lemma past_cutoff_drops second2tick cutoff tpb tempo_now total :
  cutoff <> Some 0 ->
  cutoff_drops second2tick cutoff tpb tempo_now total ->
  past_cutoff second2tick cutoff tpb tempo_now total = Some true.
Proof.
  intros Hz (s & tick & -> & Hs & Hle). unfold past_cutoff.
  rewrite truthy_given, Hs by assumption. cbn.
  apply Qle_bool_iff in Hle. rewrite Hle. reflexivity.
Qed.

Lemma past_cutoff_passes second2tick cutoff tpb tempo_now total :
  cutoff_passes second2tick cutoff tpb tempo_now total ->
  past_cutoff second2tick cutoff tpb tempo_now total = Some false.
Proof.
  intros [->|(s & tick & -> & Hs & Hle)]; [reflexivity|].
  unfold past_cutoff, truthy. destruct (s =? 0); [reflexivity|].
  rewrite Hs. cbn. destruct (Qle_bool tick (inject_Z total)) eqn:Hb;
    [|reflexivity].
  apply Qle_bool_iff in Hb. contradiction.
Qed.

Lemma before_offset_drops second2tick offset tpb tempo_now total :
  offset <> Some 0 ->
  offset_drops second2tick offset tpb tempo_now total ->
  before_offset second2tick offset tpb tempo_now total = Some true.
Proof.
  intros Hz (s & tick & -> & Hs & Hle). unfold before_offset.
  rewrite truthy_given, Hs by assumption. cbn.
  apply Qle_bool_iff in Hle. rewrite Hle. reflexivity.
Qed.

Lemma before_offset_passes second2tick offset tpb tempo_now total :
  offset_passes second2tick offset tpb tempo_now total ->
  before_offset second2tick offset tpb tempo_now total = Some false.
Proof.
  intros [->|(s & tick & -> & Hs & Hle)]; [reflexivity|].
  unfold before_offset, truthy. destruct (s =? 0); [reflexivity|].
  rewrite Hs. cbn. destruct (Qle_bool (inject_Z total) tick) eqn:Hb;
    [|reflexivity].
  apply Qle_bool_iff in Hb. contradiction.
Qed.

(** C4.  For a message of channel [c], read in a state where the carry, the
    activity and the total of [c] are [delta], [active] and [total]: the
    window is tested on the total as already updated, at the tempo of the
    state, the cutoff first.  When the cutoff drops the message, or the
    cutoff lets it pass and the offset drops it, the result is the booked
    state, all counters and flags updated and the new tracks untouched; when
    both let it pass the message is appended to the new track of [c] with
    the time of line 86.  A cutoff or offset that is given is not zero. *)
Theorem window_tested_after_bookkeeping
    (second2tick : Z -> Z -> Z -> option Q)
    (trim_silence ignore_meta : bool) (cutoff offset : option Z)
    (ticks_per_beat : Z) (st : state) (m : Message.t) (c : nat)
    (delta : Z) (active : bool) (total : Z) (track : list Message.t) :
  ignored ignore_meta m = false ->
  Message.channel m = Some c ->
  delta_ticks st !! c = Some delta ->
  active_channels st !! c = Some active ->
  total_ticks st !! c = Some total ->
  new_tracks st !! c = Some track ->
  (c < length (instruments st))%nat ->
  cutoff <> Some 0 -> offset <> Some 0 ->
  let new_time := trimmed trim_silence (delta + Message.time m) in
  let st1 := booked trim_silence st m c delta total in
  let result :=
    process_message second2tick trim_silence ignore_meta cutoff offset
      ticks_per_beat st m in
  total_ticks st1 !! c = Some (total + new_time) /\
  (cutoff_drops second2tick cutoff ticks_per_beat (tempo st)
     (total + new_time) ->
   result = Some st1) /\
  (cutoff_passes second2tick cutoff ticks_per_beat (tempo st)
     (total + new_time) ->
   offset_drops second2tick offset ticks_per_beat (tempo st)
     (total + new_time) ->
   result = Some st1) /\
  (cutoff_passes second2tick cutoff ticks_per_beat (tempo st)
     (total + new_time) ->
   offset_passes second2tick offset ticks_per_beat (tempo st)
     (total + new_time) ->
   result
   = Some (appended st1 c track
             (Message.set_time m (corrected trim_silence active new_time)))).
Proof.
  intros Hi Hc Hd Ha Ht Hn Hlen Hcz Hoz new_time st1 result.
  assert (result
          = channel_message second2tick trim_silence cutoff offset
              ticks_per_beat st m c) as ->
    by exact (process_message_channel _ _ _ _ _ _ _ _ c Hi Hc).
  rewrite (channel_message_eq _ _ _ _ _ st m c delta active total track)
    by assumption.
  fold new_time. fold st1. split_and!.
  - subst st1. cbn. rewrite list_lookup_insert_eq; [reflexivity|].
    eapply lookup_lt_Some; eassumption.
  - intros Hdrop. rewrite (past_cutoff_drops _ _ _ _ _ Hcz Hdrop).
    reflexivity.
  - intros Hpass Hdrop. rewrite (past_cutoff_passes _ _ _ _ _ Hpass). cbn.
    rewrite (before_offset_drops _ _ _ _ _ Hoz Hdrop). reflexivity.
  - intros Hpass Hpass'. rewrite (past_cutoff_passes _ _ _ _ _ Hpass). cbn.
    rewrite (before_offset_passes _ _ _ _ _ Hpass'). reflexivity.
Qed.

Lemma window_tested_after_bookkeeping_witness :
  let m := channel_msg "note_on" 0 2500 in
  process_message Mido.second2tick false false (Some 5) (Some 2) 480
    init_state m
  = Some (appended (booked false init_state m 0 0 0) 0 []
            (Message.set_time m 2500)).
Proof.
  cbv zeta.
  refine (proj2 (proj2 (proj2
    (window_tested_after_bookkeeping Mido.second2tick false false
       (Some 5) (Some 2) 480 init_state (channel_msg "note_on" 0 2500)
       0%nat 0 false 0 [] _ _ _ _ _ _ _ _ _))) _ _).
  - reflexivity.
  - reflexivity.
  - reflexivity.
  - reflexivity.
  - reflexivity.
  - reflexivity.
  - cbn. lia.
  - discriminate.
  - discriminate.
  - right. eexists _, _. split; [reflexivity|]. split; [reflexivity|].
    intros H. vm_compute in H. exact (H eq_refl).
  - right. eexists _, _. split; [reflexivity|]. split; [reflexivity|].
    intros H. vm_compute in H. exact (H eq_refl).
Defined.

(** ** Silence *)

Lemma trimmed_off x : trimmed false x = x.
Proof. reflexivity. Qed.

Lemma trimmed_on_le x : trimmed true x <= 10000.
Proof.
  unfold trimmed. cbn [andb]. destruct (Z.ltb_spec 10000 x); lia.
Qed.

Lemma trimmed_on_above x : 10000 < x -> trimmed true x = 10000.
Proof.
  unfold trimmed. cbn [andb]. intros H. destruct (Z.ltb_spec 10000 x); lia.
Qed.

Lemma corrected_off active x : corrected false active x = x.
Proof. unfold corrected. destruct active; reflexivity. Qed.

Lemma corrected_on_le active x :
  corrected true active (trimmed true x) <= 10000.
Proof.
  unfold corrected. pose proof (trimmed_on_le x).
  destruct active; cbn [orb negb]; lia.
Qed.

Lemma process_message_times_trimmed second2tick ignore_meta cutoff offset tpb
    st m st' :
  times_trimmed st ->
  process_message second2tick true ignore_meta cutoff offset tpb st m
  = Some st' ->
  times_trimmed st'.
Proof.
  intros HP H c out m' Hout Hin Hch.
  apply process_message_inv in H
    as [[_ ->]|[(_ & Hg & ->)|(_ & c' & Hc' & H)]].
  - exact (HP c out m' Hout Hin Hch).
  - cbn in Hout. rewrite list_lookup_fmap in Hout.
    destruct (new_tracks st !! c) as [track|] eqn:Htrack; [|discriminate].
    injection Hout as <-. apply elem_of_app in Hin as [Hin|Hin].
    + exact (HP c track m' Htrack Hin Hch).
    + apply list_elem_of_singleton in Hin as ->.
      unfold has_channel in Hch. rewrite Hg in Hch. discriminate.
  - apply channel_message_inv in H
      as (delta & active & total & _ & _ & _ & [->|(track' & Hn & ->)]).
    + exact (HP c out m' Hout Hin Hch).
    + cbn in Hout. destruct (decide (c' = c)) as [->|Hne].
      * rewrite list_lookup_insert_eq in Hout
          by (eapply lookup_lt_Some; eassumption).
        injection Hout as <-. apply elem_of_app in Hin as [Hin|Hin].
        -- exact (HP c track' m' Hn Hin Hch).
        -- apply list_elem_of_singleton in Hin as ->. cbn.
           apply corrected_on_le.
      * rewrite list_lookup_insert_ne in Hout by assumption.
        exact (HP c out m' Hout Hin Hch).
Qed.

Lemma init_state_times_trimmed : times_trimmed init_state.
Proof.
  intros c out m' Hout Hin _. unfold init_state in Hout.
  cbn [new_tracks] in Hout.
  apply lookup_replicate in Hout as [-> _]. inversion Hin.
Qed.

(** C6.  Without [trim_silence] the time a channel message is appended with
    is its carried time as it is, however large, and so is what it adds to
    the total of its channel.  With [trim_silence] a carried time above
    10000 becomes 10000 for a channel that is active, and no channel message
    on any new track of a run has a time above 10000. *)
Theorem trim_silence_clamps
    (second2tick : Z -> Z -> Z -> option Q) (ignore_meta : bool)
    (cutoff offset : option Z) (ticks_per_beat : Z) :
  (forall st m c st' delta total track,
     ignored ignore_meta m = false ->
     Message.channel m = Some c ->
     delta_ticks st !! c = Some delta ->
     total_ticks st !! c = Some total ->
     new_tracks st !! c = Some track ->
     process_message second2tick false ignore_meta cutoff offset
       ticks_per_beat st m = Some st' ->
     total_ticks st' !! c = Some (total + (delta + Message.time m)) /\
     (new_tracks st' !! c = Some track \/
      new_tracks st' !! c
      = Some (track ++ [Message.set_time m (delta + Message.time m)]))) /\
  (forall st m c st' delta track,
     ignored ignore_meta m = false ->
     Message.channel m = Some c ->
     delta_ticks st !! c = Some delta ->
     active_channels st !! c = Some true ->
     new_tracks st !! c = Some track ->
     10000 < delta + Message.time m ->
     process_message second2tick true ignore_meta cutoff offset
       ticks_per_beat st m = Some st' ->
     new_tracks st' !! c = Some track \/
     new_tracks st' !! c = Some (track ++ [Message.set_time m 10000])) /\
  (forall tracks st c out m',
     process_tracks second2tick true ignore_meta cutoff offset
       ticks_per_beat init_state tracks = Some st ->
     new_tracks st !! c = Some out ->
     m' ∈ out -> has_channel m' = true ->
     Message.time m' <= 10000).
Proof.
  split_and!.
  - intros st m c st' delta total track Hi Hc Hd Ht Hn H.
    split.
    + rewrite (process_message_channel _ _ _ _ _ _ _ _ c Hi Hc) in H.
      apply channel_message_inv in H
        as (d' & a' & t' & Hd' & _ & Ht' & [->|(track' & _ & ->)]).
      all: rewrite Hd in Hd'; rewrite Ht in Ht'.
      all: injection Hd' as <-; injection Ht' as <-.
      all: cbn; rewrite list_lookup_insert_eq; [reflexivity|].
      all: eapply lookup_lt_Some; eassumption.
    + destruct (lookup_lt_is_Some_2 (active_channels st) c) as [active Ha].
      { rewrite (process_message_channel _ _ _ _ _ _ _ _ c Hi Hc) in H.
        apply channel_message_inv in H as (_ & a' & _ & _ & Ha' & _).
        eapply lookup_lt_Some; eassumption. }
      pose proof (process_message_emits _ _ _ _ _ _ _ _ _ _ _ _ _
                    Hi Hc H Hd Ha Hn) as He.
      rewrite corrected_off, trimmed_off in He. exact He.
  - intros st m c st' delta track Hi Hc Hd Ha Hn Hbig H.
    pose proof (process_message_emits _ _ _ _ _ _ _ _ _ _ _ _ _
                  Hi Hc H Hd Ha Hn) as He.
    rewrite (trimmed_on_above _ Hbig) in He. exact He.
  - intros tracks st c out m' Hrun.
    rewrite process_tracks_concat in Hrun.
    revert c out m'. fold (times_trimmed st).
    refine (process_track_ind _ _ _ _ _ _ times_trimmed _ _ _ _
              init_state_times_trimmed Hrun).
    intros st0 m st1. apply process_message_times_trimmed.
Qed.

Lemma trim_silence_clamps_witness :
  let late := channel_msg "note_off" 0 20000 in
  exists st,
    process_tracks Mido.second2tick true false None None 480 init_state
      [[channel_msg "note_on" 0 0; late]] = Some st /\
    new_tracks st !! 0%nat
    = Some [channel_msg "note_on" 0 0; Message.set_time late 10000] /\
    Message.time (Message.set_time late 10000) <= 10000.
Proof.
  cbv zeta. eexists. split; [vm_compute; reflexivity|].
  split; [reflexivity|].
  refine (proj2 (proj2 (trim_silence_clamps Mido.second2tick false None None
                          480))
            [[channel_msg "note_on" 0 0; channel_msg "note_off" 0 20000]]
            _ 0%nat _ _ _ _ _ _).
  - vm_compute. reflexivity.
  - reflexivity.
  - apply elem_of_cons. right. apply elem_of_cons. left. reflexivity.
  - reflexivity.
Defined.

(** ** Messages without channel *)

(** C7.  A message without channel that the loop does not skip is appended
    as it is, time included, to each of the sixteen new tracks when it is
    read: on every new track it comes after what the messages before it in
    the file have put there and before what the messages after it put
    there.  A [set_tempo] among them sets the tempo of the state that the
    rest of the file is read from. *)
Theorem global_message_on_every_track
    (second2tick : Z -> Z -> Z -> option Q)
    (midi : MidiFile.t) (trim_silence ignore_meta : bool)
    (cutoff offset : option Z)
    (pre : list Message.t) (g : Message.t) (post : list Message.t)
    (st : state) :
  stream midi = pre ++ g :: post ->
  ignored ignore_meta g = false ->
  Message.channel g = None ->
  process_tracks second2tick trim_silence ignore_meta cutoff offset
    (MidiFile.ticks_per_beat midi) init_state (MidiFile.tracks midi)
  = Some st ->
  exists st_pre st_g,
    process_track second2tick trim_silence ignore_meta cutoff offset
      (MidiFile.ticks_per_beat midi) init_state pre = Some st_pre /\
    process_message second2tick trim_silence ignore_meta cutoff offset
      (MidiFile.ticks_per_beat midi) st_pre g = Some st_g /\
    process_track second2tick trim_silence ignore_meta cutoff offset
      (MidiFile.ticks_per_beat midi) st_g post = Some st /\
    tempo st_g = (if String.eqb (Message.type g) "set_tempo"
                  then Message.tempo g else tempo st_pre) /\
    length (new_tracks st) = 16%nat /\
    forall c, (c < 16)%nat ->
      exists before after,
        new_tracks st_pre !! c = Some before /\
        new_tracks st_g !! c = Some (before ++ [g]) /\
        new_tracks st !! c = Some (before ++ g :: after).
Proof.
  intros Hstream Hi Hg Hrun. unfold stream in Hstream.
  rewrite process_tracks_concat, Hstream in Hrun.
  destruct (process_track_split _ _ _ _ _ _ _ _ _ _ _ Hrun)
    as (st_pre & st_g & Hpre & Hm & Hpost).
  exists st_pre, st_g. split_and!; try assumption.
  - rewrite (process_message_global _ _ _ _ _ _ _ _ Hi Hg) in Hm.
    injection Hm as <-. reflexivity.
  - exact (proj1 (process_track_sixteen _ _ _ _ _ _ _ _ _
                    init_state_sixteen Hrun)).
  - intros c Hlt.
    pose proof (process_track_sixteen _ _ _ _ _ _ _ _ _
                  init_state_sixteen Hpre) as (Hn & _).
    destruct (lookup_lt_is_Some_2 (new_tracks st_pre) c) as [before Hb];
      [lia|].
    assert (new_tracks st_g !! c = Some (before ++ [g])) as Hmid.
    { rewrite (process_message_global _ _ _ _ _ _ _ _ Hi Hg) in Hm.
      injection Hm as <-. cbn. rewrite list_lookup_fmap, Hb. reflexivity. }
    destruct (process_track_grows _ _ _ _ _ _ _ _ _ _ _ Hpost Hmid)
      as [after Hafter].
    exists before, after. split_and!; try assumption.
    rewrite Hafter, <- app_assoc. reflexivity.
Qed.

Lemma global_message_on_every_track_witness :
  let g := meta_msg "set_tempo" 7 1000 in
  let midi :=
    {| MidiFile.ticks_per_beat := 480;
       MidiFile.tracks := [[channel_msg "note_on" 0 5; g];
                           [channel_msg "note_on" 1 20]] |} in
  exists st st_pre st_g,
    process_tracks Mido.second2tick false true None None 480 init_state
      (MidiFile.tracks midi) = Some st /\
    process_message Mido.second2tick false true None None 480 st_pre g
    = Some st_g /\
    tempo st_g = 1000 /\
    new_tracks st !! 0%nat = Some [channel_msg "note_on" 0 5; g] /\
    new_tracks st !! 1%nat = Some [g; channel_msg "note_on" 1 25] /\
    new_tracks st !! 15%nat = Some [g].
Proof.
  cbv zeta.
  destruct (global_message_on_every_track Mido.second2tick
              {| MidiFile.ticks_per_beat := 480;
                 MidiFile.tracks :=
                   [[channel_msg "note_on" 0 5; meta_msg "set_tempo" 7 1000];
                    [channel_msg "note_on" 1 20]] |}
              false true None None
              [channel_msg "note_on" 0 5] (meta_msg "set_tempo" 7 1000)
              [channel_msg "note_on" 1 20]
              _ eq_refl eq_refl eq_refl eq_refl)
    as (st_pre & st_g & _ & Hg & _ & Htempo & _).
  eexists _, st_pre, st_g. split; [reflexivity|].
  split; [exact Hg|]. split; [exact Htempo|].
  split_and!; reflexivity.
Defined.

(** ** Silence at the start of a channel *)

Lemma init_state_starts_silent : starts_silent init_state.
Proof.
  intros c out Hout. unfold init_state in *. cbn [new_tracks] in Hout.
  apply lookup_replicate in Hout as [-> Hlt]. right.
  split; [reflexivity|]. cbn [active_channels].
  apply lookup_replicate. split; [reflexivity|assumption].
Qed.

Lemma process_message_starts_silent second2tick ignore_meta cutoff offset tpb
    st m st' :
  truthy cutoff = None -> truthy offset = None ->
  starts_silent st ->
  process_message second2tick true ignore_meta cutoff offset tpb st m
  = Some st' ->
  starts_silent st'.
Proof.
  intros Hcut Hoff HP H c out Hout.
  apply process_message_inv in H
    as [[_ ->]|[(_ & Hg & ->)|(_ & c' & Hc' & H)]].
  - exact (HP c out Hout).
  - cbn in Hout. rewrite list_lookup_fmap in Hout.
    destruct (new_tracks st !! c) as [track|] eqn:Htrack; [|discriminate].
    injection Hout as <-. rewrite List.filter_app. cbn.
    unfold has_channel at 2 4. rewrite Hg, app_nil_r.
    exact (HP c track Htrack).
  - apply (channel_message_no_window _ _ _ _ _ _ _ _ _ Hcut Hoff) in H
      as (delta & active & total & track' & _ & Ha & _ & Hn & ->).
    cbn in Hout. cbn [appended booked active_channels].
    destruct (decide (c' = c)) as [->|Hne].
    + rewrite list_lookup_insert_eq in Hout
        by (eapply lookup_lt_Some; eassumption).
      injection Hout as <-. rewrite List.filter_app. cbn [List.filter].
      unfold has_channel at 2 4. cbn [Message.set_time Message.channel].
      rewrite Hc'. left.
      destruct (HP c track' Hn) as [(m0 & Hhead & Hzero)|[Hnone Hinactive]].
      * exists m0. split; [|assumption].
        destruct (List.filter has_channel track'); [discriminate|].
        exact Hhead.
      * rewrite Hnone. eexists. split; [reflexivity|].
        rewrite Ha in Hinactive. injection Hinactive as ->. reflexivity.
    + rewrite list_lookup_insert_ne in Hout by assumption.
      destruct (HP c out Hout) as [Hsome|[Hnone Hinactive]];
        [left; assumption|right].
      split; [assumption|].
      destruct (is_note_on m); [|assumption].
      rewrite list_lookup_insert_ne; assumption.
Qed.

(** C2, as the code has it.  Under [trim_silence] a channel message read
    while its channel is not active is appended, if the window keeps it,
    with time 0; the first note-on of the channel is one of them.  So under
    [trim_silence] and without window the first channel message on every
    new track has time 0. *)
Theorem leading_silence_when_trimming
    (second2tick : Z -> Z -> Z -> option Q) (ignore_meta : bool)
    (cutoff offset : option Z) (ticks_per_beat : Z) :
  (forall st m c st' track,
     ignored ignore_meta m = false ->
     Message.channel m = Some c ->
     active_channels st !! c = Some false ->
     new_tracks st !! c = Some track ->
     process_message second2tick true ignore_meta cutoff offset
       ticks_per_beat st m = Some st' ->
     new_tracks st' !! c = Some track \/
     new_tracks st' !! c = Some (track ++ [Message.set_time m 0])) /\
  (forall tracks st c out m',
     truthy cutoff = None -> truthy offset = None ->
     process_tracks second2tick true ignore_meta cutoff offset
       ticks_per_beat init_state tracks = Some st ->
     new_tracks st !! c = Some out ->
     head (List.filter has_channel out) = Some m' ->
     Message.time m' = 0).
Proof.
  split.
  - intros st m c st' track Hi Hc Ha Hn H.
    destruct (lookup_lt_is_Some_2 (delta_ticks st) c) as [delta Hd].
    { pose proof H as H'.
      rewrite (process_message_channel _ _ _ _ _ _ _ _ c Hi Hc) in H'.
      apply channel_message_inv in H' as (d' & _ & _ & Hd' & _).
      eapply lookup_lt_Some; eassumption. }
    exact (process_message_emits _ _ _ _ _ _ _ _ _ _ _ _ _
             Hi Hc H Hd Ha Hn).
  - intros tracks st c out m' Hcut Hoff Hrun Hout Hhead.
    rewrite process_tracks_concat in Hrun.
    assert (starts_silent st) as HP.
    { refine (process_track_ind _ _ _ _ _ _ starts_silent _ _ _ _
                init_state_starts_silent Hrun).
      intros st0 m st1.
      apply process_message_starts_silent; assumption. }
    destruct (HP c out Hout) as [(m0 & Hhead0 & Hzero)|[Hnone _]].
    + rewrite Hhead in Hhead0. injection Hhead0 as <-. assumption.
    + rewrite Hnone in Hhead. discriminate.
Qed.

Lemma leading_silence_when_trimming_witness :
  let m := channel_msg "note_on" 3 480 in
  exists st,
    process_tracks Mido.second2tick true false None None 480 init_state
      [[meta_msg "set_tempo" 7 1000; m; channel_msg "note_off" 3 240]]
    = Some st /\
    new_tracks st !! 3%nat
    = Some [meta_msg "set_tempo" 7 1000; Message.set_time m 0;
            channel_msg "note_off" 3 240] /\
    Message.time (Message.set_time m 0) = 0.
Proof.
  cbv zeta. eexists. split; [vm_compute; reflexivity|].
  split; [reflexivity|].
  refine (proj2 (leading_silence_when_trimming Mido.second2tick false
                   None None 480)
            [[meta_msg "set_tempo" 7 1000; channel_msg "note_on" 3 480;
              channel_msg "note_off" 3 240]]
            _ 3%nat _ _ eq_refl eq_refl _ _ _).
  - vm_compute. reflexivity.
  - reflexivity.
  - reflexivity.
Defined.

(** C2 as stated fails.  Without [trim_silence] the first note-on of a
    channel keeps its time; under [trim_silence] an offset can drop the
    note-on that makes the channel active, and the first message kept for
    the channel has its carried time; and the first message on a new track
    can be one without channel, with the time it has in the file. *)
Lemma leading_silence_counterexample :
  let m := channel_msg "note_on" 0 5 in
  let late := channel_msg "note_off" 0 2000 in
  let g := meta_msg "set_tempo" 7 1000 in
  (active_channels init_state !! 0%nat = Some false /\
   split_midi Mido.second2tick
     {| MidiFile.ticks_per_beat := 480; MidiFile.tracks := [[m]] |}
     false false None None
   = Some [{| file_instrument := 1; file_channel := 0;
              file_ticks_per_beat := 480; file_tracks := [[m]] |}] /\
   Message.time m <> 0) /\
  (split_midi Mido.second2tick
     {| MidiFile.ticks_per_beat := 480;
        MidiFile.tracks := [[channel_msg "note_on" 0 0; late]] |}
     true false None (Some 2)
   = Some [{| file_instrument := 1; file_channel := 0;
              file_ticks_per_beat := 480; file_tracks := [[late]] |}] /\
   Message.time late <> 0) /\
  (split_midi Mido.second2tick
     {| MidiFile.ticks_per_beat := 480;
        MidiFile.tracks := [[g; channel_msg "note_on" 0 0]] |}
     true false None None
   = Some [{| file_instrument := 1; file_channel := 0;
              file_ticks_per_beat := 480;
              file_tracks := [[g; channel_msg "note_on" 0 0]] |}] /\
   Message.time g <> 0).
Proof.
  cbv zeta. split_and!; try (vm_compute; reflexivity); discriminate.
Qed.

(** ** Absolute time *)

Lemma kept_app ignore_meta l1 l2 :
  kept ignore_meta (l1 ++ l2) = kept ignore_meta l1 ++ kept ignore_meta l2.
Proof. apply List.filter_app. Qed.

Lemma kept_all l : kept false l = l.
Proof.
  unfold kept, ignored. cbn.
  induction l as [|m l IH]; [reflexivity|]. cbn. rewrite IH. reflexivity.
Qed.

Lemma kept_one ignore_meta m :
  ignored ignore_meta m = false -> kept ignore_meta [m] = [m].
Proof. unfold kept. cbn. intros ->. reflexivity. Qed.

Lemma tick_position_split pre m post :
  tick_position (pre ++ m :: post) (length pre) = sum_times (pre ++ [m]).
Proof.
  unfold tick_position.
  replace (S (length pre)) with (length (pre ++ [m]))
    by (rewrite length_app; cbn; lia).
  rewrite (cons_middle m pre post), app_assoc, take_app_length.
  reflexivity.
Qed.

Lemma init_state_on_clock : on_clock 0 init_state.
Proof.
  intros c out d Hout Hd. unfold init_state in *.
  cbn [new_tracks delta_ticks] in *.
  apply lookup_replicate in Hout as [-> _].
  apply lookup_replicate in Hd as [-> _]. reflexivity.
Qed.

Lemma process_message_on_clock second2tick ignore_meta cutoff offset tpb
    T st m st' :
  truthy cutoff = None -> truthy offset = None ->
  on_clock T st ->
  process_message second2tick false ignore_meta cutoff offset tpb st m
  = Some st' ->
  on_clock (T + sum_times (kept ignore_meta [m])) st'.
Proof.
  intros Hcut Hoff HP H c out d Hout Hd. unfold kept. cbn [List.filter].
  apply process_message_inv in H
    as [[Hi ->]|[(Hi & Hg & ->)|(Hi & c' & Hc' & H)]]; rewrite Hi;
    cbn [negb sum_times foldr].
  - rewrite Z.add_0_r. exact (HP c out d Hout Hd).
  - cbn in Hout, Hd. rewrite list_lookup_fmap in Hout.
    destruct (new_tracks st !! c) as [track|] eqn:Htrack; [|discriminate].
    injection Hout as <-. rewrite sum_times_snoc.
    pose proof (HP c track d Htrack Hd). lia.
  - apply (channel_message_no_window _ _ _ _ _ _ _ _ _ Hcut Hoff) in H
      as (delta & active & total & track' & Hdelta & _ & _ & Hn & ->).
    rewrite corrected_off, trimmed_off in Hout.
    cbn [appended booked new_tracks delta_ticks] in Hout, Hd.
    destruct (decide (c' = c)) as [->|Hne].
    + rewrite list_lookup_insert_eq in Hout
        by (eapply lookup_lt_Some; eassumption).
      rewrite list_lookup_insert_eq in Hd
        by (rewrite length_fmap; eapply lookup_lt_Some; eassumption).
      injection Hout as <-. injection Hd as <-.
      rewrite sum_times_snoc. cbn.
      pose proof (HP c track' delta Hn Hdelta). lia.
    + rewrite list_lookup_insert_ne in Hout by assumption.
      rewrite list_lookup_insert_ne, list_lookup_fmap in Hd by assumption.
      destruct (delta_ticks st !! c) as [d0|] eqn:Hd0; [|discriminate].
      injection Hd as <-. pose proof (HP c out d0 Hout Hd0). lia.
Qed.

Lemma process_track_on_clock second2tick ignore_meta cutoff offset tpb
    l T st st' :
  truthy cutoff = None -> truthy offset = None ->
  on_clock T st ->
  process_track second2tick false ignore_meta cutoff offset tpb st l
  = Some st' ->
  on_clock (T + sum_times (kept ignore_meta l)) st'.
Proof.
  intros Hcut Hoff. revert T st.
  induction l as [|m l IH]; intros T st HP H; cbn in H.
  - injection H as <-. cbn. rewrite Z.add_0_r. assumption.
  - destruct (process_message _ _ _ _ _ _ st m) as [st1|] eqn:Hm;
      [|discriminate].
    change (m :: l) with ([m] ++ l).
    rewrite kept_app, sum_times_app, Z.add_assoc.
    apply (IH _ st1); [|assumption].
    exact (process_message_on_clock _ _ _ _ _ _ _ _ _ Hcut Hoff HP Hm).
Qed.

(** C1, as the code has it.  Without [trim_silence] and without window,
    take any message [m] of a channel [c] in the file.  On the new track of
    [c] it stands, with a corrected time and nothing else changed, right
    after what the messages before it have put there, and the times on the
    track up to and including it add up to the times of all messages read
    up to and including [m], those that the loop skips left out.  When
    [ignore_meta] is off that sum is the absolute tick position of [m] in
    the file. *)
Theorem absolute_time_preserved
    (second2tick : Z -> Z -> Z -> option Q)
    (midi : MidiFile.t) (ignore_meta : bool) (cutoff offset : option Z)
    (pre : list Message.t) (m : Message.t) (post : list Message.t)
    (c : nat) (st : state) :
  truthy cutoff = None -> truthy offset = None ->
  stream midi = pre ++ m :: post ->
  ignored ignore_meta m = false ->
  Message.channel m = Some c ->
  process_tracks second2tick false ignore_meta cutoff offset
    (MidiFile.ticks_per_beat midi) init_state (MidiFile.tracks midi)
  = Some st ->
  exists st_pre before m' after,
    process_track second2tick false ignore_meta cutoff offset
      (MidiFile.ticks_per_beat midi) init_state pre = Some st_pre /\
    new_tracks st_pre !! c = Some before /\
    new_tracks st !! c = Some (before ++ m' :: after) /\
    m' = Message.set_time m (Message.time m') /\
    sum_times (before ++ [m']) = sum_times (kept ignore_meta (pre ++ [m])) /\
    (ignore_meta = false ->
     sum_times (before ++ [m'])
     = tick_position (stream midi) (length pre)).
Proof.
  intros Hcut Hoff Hstream Hi Hc Hrun.
  rewrite process_tracks_concat in Hrun. fold (stream midi) in Hrun.
  rewrite Hstream in *.
  destruct (process_track_split _ _ _ _ _ _ _ _ _ _ _ Hrun)
    as (st_pre & st_m & Hpre & Hm & Hpost).
  pose proof (process_track_on_clock _ _ _ _ _ _ _ _ _ Hcut Hoff
                init_state_on_clock Hpre) as Hclock.
  rewrite Z.add_0_l in Hclock.
  pose proof Hm as Hm'.
  rewrite (process_message_channel _ _ _ _ _ _ _ _ c Hi Hc) in Hm'.
  apply (channel_message_no_window _ _ _ _ _ _ _ _ _ Hcut Hoff) in Hm'
    as (delta & active & total & before & Hdelta & _ & _ & Hn & ->).
  rewrite corrected_off, trimmed_off in *.
  set (m' := Message.set_time m (delta + Message.time m)) in *.
  assert (new_tracks
            (appended (booked false st_pre m c delta total) c before m')
          !! c = Some (before ++ [m'])) as Hmid.
  { cbn. rewrite list_lookup_insert_eq; [reflexivity|].
    eapply lookup_lt_Some; eassumption. }
  destruct (process_track_grows _ _ _ _ _ _ _ _ _ _ _ Hpost Hmid)
    as [after Hafter].
  assert (sum_times (before ++ [m'])
          = sum_times (kept ignore_meta (pre ++ [m]))) as Hsum.
  { rewrite sum_times_snoc, kept_app, sum_times_app, (kept_one _ _ Hi).
    pose proof (Hclock c before delta Hn Hdelta). subst m'. cbn. lia. }
  exists st_pre, before, m', after. split_and!; try assumption.
  - rewrite Hafter, <- app_assoc. reflexivity.
  - reflexivity.
  - intros ->. rewrite Hsum, kept_all, tick_position_split. reflexivity.
Qed.

Lemma absolute_time_preserved_witness :
  let a := channel_msg "note_on" 0 0 in
  let b := channel_msg "note_on" 1 100 in
  let g := meta_msg "set_tempo" 10 400000 in
  let m := channel_msg "note_off" 0 5 in
  let midi :=
    {| MidiFile.ticks_per_beat := 480; MidiFile.tracks := [[a; b; g; m]] |} in
  exists st,
    process_tracks Mido.second2tick false false None None 480 init_state
      (MidiFile.tracks midi) = Some st /\
    new_tracks st !! 0%nat = Some [a; g; Message.set_time m 105] /\
    tick_position (stream midi) 3 = 115 /\
    exists st_pre before m' after,
      process_track Mido.second2tick false false None None 480 init_state
        [a; b; g] = Some st_pre /\
      new_tracks st_pre !! 0%nat = Some before /\
      new_tracks st !! 0%nat = Some (before ++ m' :: after) /\
      m' = Message.set_time m (Message.time m') /\
      sum_times (before ++ [m']) = sum_times (kept false ([a; b; g] ++ [m])) /\
      (false = false ->
       sum_times (before ++ [m']) = tick_position (stream midi) 3).
Proof.
  cbv zeta. eexists. split; [vm_compute; reflexivity|].
  split; [reflexivity|]. split; [reflexivity|].
  apply (absolute_time_preserved Mido.second2tick
           {| MidiFile.ticks_per_beat := 480;
              MidiFile.tracks :=
                [[channel_msg "note_on" 0 0; channel_msg "note_on" 1 100;
                  meta_msg "set_tempo" 10 400000;
                  channel_msg "note_off" 0 5]] |}
           false None None
           [channel_msg "note_on" 0 0; channel_msg "note_on" 1 100;
            meta_msg "set_tempo" 10 400000]
           (channel_msg "note_off" 0 5) [] 0%nat).
  - reflexivity.
  - reflexivity.
  - reflexivity.
  - reflexivity.
  - reflexivity.
  - vm_compute. reflexivity.
Defined.

(** C1 as stated fails, in four ways.  Under [trim_silence] the first
    note-on of a channel is written with time 0 wherever it stands.  With
    an offset the interval of a dropped message is lost for the next one
    kept.  A meta message that the loop skips takes its time with it.  And
    a message without channel is written with its own time, not with the
    carry of the channel. *)
Lemma absolute_time_counterexample :
  (let m := channel_msg "note_on" 0 5 in
   exists st,
     process_tracks Mido.second2tick true false None None 480 init_state
       [[m]] = Some st /\
     new_tracks st !! 0%nat = Some [Message.set_time m 0] /\
     sum_times [Message.set_time m 0] <> tick_position [m] 0) /\
  (let a := channel_msg "note_on" 0 500 in
   let b := channel_msg "note_off" 0 1000 in
   let m := channel_msg "note_on" 0 1000 in
   exists st,
     process_tracks Mido.second2tick false false None (Some 2) 480
       init_state [[a; b; m]] = Some st /\
     new_tracks st !! 0%nat = Some [m] /\
     sum_times [m] <> tick_position [a; b; m] 2) /\
  (let t := meta_msg "text" 100 0 in
   let m := channel_msg "note_on" 0 5 in
   exists st,
     process_tracks Mido.second2tick false true None None 480 init_state
       [[t; m]] = Some st /\
     new_tracks st !! 0%nat = Some [m] /\
     sum_times [m] <> tick_position [t; m] 1) /\
  (let b := channel_msg "note_on" 1 100 in
   let g := meta_msg "set_tempo" 10 400000 in
   exists st,
     process_tracks Mido.second2tick false false None None 480 init_state
       [[b; g]] = Some st /\
     new_tracks st !! 0%nat = Some [g] /\
     sum_times [g] <> tick_position [b; g] 1).
Proof.
  cbv zeta. split_and!.
  all: eexists; split; [vm_compute; reflexivity|].
  all: split; [reflexivity|]; vm_compute; discriminate.
Qed.

(** ** A file with a single channel *)

Lemma set_time_same m : Message.set_time m (Message.time m) = m.
Proof. destruct m. reflexivity. Qed.









(** ** The window in ticks *)

(** At 480 ticks per beat and 500000 microseconds per beat an offset of 2
    seconds is 1920 ticks. *)
Lemma before_offset_two_seconds total :
  before_offset Mido.second2tick (Some 2) 480 500000 total
  = Some (total <=? 1920).
Proof.
  unfold before_offset. cbn [truthy Z.eqb].
  set (q := Mido.second2tick 2 480 500000). vm_compute in q. subst q.
  cbn [mbind option_bind]. f_equal.
  unfold Qle_bool. cbn [Qnum Qden inject_Z].
  destruct (Z.leb_spec total 1920); [apply Z.leb_le|apply Z.leb_gt]; lia.
Qed.

(** C5, as the conversion has it.  At 480 ticks per beat and the tempo of
    500000 microseconds per beat, 2 seconds are 1920 ticks and 1 second is
    960 ticks.  With an offset of 2 seconds and no cutoff, a channel message
    read at that tempo is dropped when the total of its channel, the message
    counted, is 1920 at most, and appended when it is above: so three
    messages that bring the total of a channel to 500, 1500 and 2500 leave
    the third alone on its new track. *)
Theorem window_ticks_at_default_tempo :
  (exists q, Mido.second2tick 2 480 500000 = Some q /\ (q == 1920)%Q) /\
  (exists q, Mido.second2tick 1 480 500000 = Some q /\ (q == 960)%Q) /\
  (forall trim_silence ignore_meta st m c delta active total track,
     ignored ignore_meta m = false ->
     Message.channel m = Some c ->
     delta_ticks st !! c = Some delta ->
     active_channels st !! c = Some active ->
     total_ticks st !! c = Some total ->
     new_tracks st !! c = Some track ->
     (c < length (instruments st))%nat ->
     tempo st = 500000 ->
     let new_time := trimmed trim_silence (delta + Message.time m) in
     let st1 := booked trim_silence st m c delta total in
     process_message Mido.second2tick trim_silence ignore_meta None (Some 2)
       480 st m
     = Some (if total + new_time <=? 1920 then st1
             else appended st1 c track
                    (Message.set_time m
                       (corrected trim_silence active new_time)))) /\
  (let a := channel_msg "note_on" 0 500 in
   let b := channel_msg "note_off" 0 1000 in
   let m := channel_msg "note_on" 0 1000 in
   exists st1 st2 st3,
     process_message Mido.second2tick false false None (Some 2) 480
       init_state a = Some st1 /\
     process_message Mido.second2tick false false None (Some 2) 480
       st1 b = Some st2 /\
     process_message Mido.second2tick false false None (Some 2) 480
       st2 m = Some st3 /\
     total_ticks st1 !! 0%nat = Some 500 /\
     total_ticks st2 !! 0%nat = Some 1500 /\
     total_ticks st3 !! 0%nat = Some 2500 /\
     new_tracks st1 !! 0%nat = Some [] /\
     new_tracks st2 !! 0%nat = Some [] /\
     new_tracks st3 !! 0%nat = Some [m]).
Proof.
  split_and!.
  - eexists. split; [reflexivity|]. reflexivity.
  - eexists. split; [reflexivity|]. reflexivity.
  - intros trim_silence ignore_meta st m c delta active total track
      Hi Hc Hd Ha Ht Hn Hlen Htempo new_time st1.
    rewrite (process_message_channel _ _ _ _ _ _ _ _ c Hi Hc).
    rewrite (channel_message_eq _ _ _ _ _ st m c delta active total track)
      by assumption.
    fold new_time. fold st1. rewrite Htempo, before_offset_two_seconds.
    cbn [past_cutoff truthy mbind option_bind].
    destruct (total + new_time <=? 1920); reflexivity.
  - cbv zeta. eexists _, _, _.
    split; [vm_compute; reflexivity|].
    split; [vm_compute; reflexivity|].
    split; [vm_compute; reflexivity|].
    split_and!; reflexivity.
Qed.

Lemma window_ticks_at_default_tempo_witness :
  let m := channel_msg "note_on" 0 2500 in
  process_message Mido.second2tick true false None (Some 2) 480
    init_state m
  = Some (appended (booked true init_state m 0 0 0) 0 []
            (Message.set_time m 0)).
Proof.
  cbv zeta.
  exact (proj1 (proj2 (proj2 window_ticks_at_default_tempo))
           true false init_state (channel_msg "note_on" 0 2500) 0%nat
           0 false 0 [] eq_refl eq_refl eq_refl eq_refl eq_refl eq_refl
           (Nat.lt_0_succ 15) eq_refl).
Defined.

(** C5 as stated fails: the two conversions do not give 2000 and 1000. *)
Lemma window_ticks_counterexample :
  (exists q, Mido.second2tick 2 480 500000 = Some q /\ ~ (q == 2000)%Q) /\
  (exists q, Mido.second2tick 1 480 500000 = Some q /\ ~ (q == 1000)%Q).
Proof.
  split; eexists; (split; [reflexivity|]); intros H; vm_compute in H;
    discriminate.
Qed.

(** * Further properties of the loop *)

(** ** What can raise *)





(** X2.  A message that is read with a channel above 15 makes the run
    raise: the carry list has no entry for it. *)
Theorem channel_out_of_range_raises
    (second2tick : Z -> Z -> Z -> option Q)
    (midi : MidiFile.t) (trim_silence ignore_meta : bool)
    (cutoff offset : option Z)
    (pre : list Message.t) (m : Message.t) (post : list Message.t)
    (c : nat) :
  stream midi = pre ++ m :: post ->
  ignored ignore_meta m = false ->
  Message.channel m = Some c ->
  (16 <= c)%nat ->
  split_midi second2tick midi trim_silence ignore_meta cutoff offset = None.
Proof.
  intros Hstream Hi Hc Hge. unfold split_midi.
  rewrite process_tracks_concat. fold (stream midi).
  rewrite Hstream, process_track_app.
  destruct (process_track _ _ _ _ _ _ init_state pre) as [st_pre|] eqn:Hpre;
    [|reflexivity].
  pose proof (process_track_sixteen _ _ _ _ _ _ _ _ _
                init_state_sixteen Hpre) as (_ & Hd & _).
  cbn. rewrite (process_message_channel _ _ _ _ _ _ _ _ c Hi Hc).
  unfold channel_message.
  rewrite (proj2 (lookup_ge_None (delta_ticks st_pre) c)) by lia.
  reflexivity.
Qed.

Lemma channel_out_of_range_raises_witness :
  split_midi Mido.second2tick
    {| MidiFile.ticks_per_beat := 480;
       MidiFile.tracks := [[channel_msg "note_on" 0 0;
                            channel_msg "note_on" 16 10]] |}
    false false None None = None.
Proof.
  apply (channel_out_of_range_raises Mido.second2tick _ false false None None
           [channel_msg "note_on" 0 0] (channel_msg "note_on" 16 10) []
           16%nat).
  - reflexivity.
  - reflexivity.
  - reflexivity.
  - lia.
Defined.

(** ** Skipped messages *)

Lemma ignored_off m : ignored false m = false.
Proof. reflexivity. Qed.

Lemma process_track_kept second2tick trim_silence cutoff offset tpb l st :
  process_track second2tick trim_silence true cutoff offset tpb st l
  = process_track second2tick trim_silence false cutoff offset tpb st
      (kept true l).
Proof.
  revert st. induction l as [|m l IH]; intros st; [reflexivity|].
  unfold kept. cbn [List.filter]. fold (kept true l).
  destruct (ignored true m) eqn:Hi; cbn [negb process_track].
  - rewrite (process_message_ignored _ _ _ _ _ _ _ _ Hi).
    cbn [mbind option_bind]. apply IH.
  - assert (process_message second2tick trim_silence true cutoff offset tpb
              st m
            = process_message second2tick trim_silence false cutoff offset
                tpb st m) as ->
      by (unfold process_message; rewrite Hi, ignored_off; reflexivity).
    destruct (process_message _ _ false _ _ _ st m) as [st1|];
      [apply IH|reflexivity].
Qed.

(** X3.  Running with [ignore_meta] is running without it on the file from
    which the meta messages of the six ignored types have been deleted:
    a skipped message leaves no trace, not even its time. *)
Theorem ignore_meta_deletes
    (second2tick : Z -> Z -> Z -> option Q)
    (midi : MidiFile.t) (trim_silence : bool) (cutoff offset : option Z) :
  split_midi second2tick midi trim_silence true cutoff offset
  = split_midi second2tick
      {| MidiFile.ticks_per_beat := MidiFile.ticks_per_beat midi;
         MidiFile.tracks := kept true <$> MidiFile.tracks midi |}
      trim_silence false cutoff offset.
Proof.
  unfold split_midi. cbn [MidiFile.ticks_per_beat MidiFile.tracks].
  set (tpb := MidiFile.ticks_per_beat midi).
  assert (forall tracks st,
            process_tracks second2tick trim_silence true cutoff offset tpb
              st tracks
            = process_tracks second2tick trim_silence false cutoff offset tpb
                st (kept true <$> tracks)) as ->; [|reflexivity].
  induction tracks as [|track tracks IH]; intros st; [reflexivity|].
  cbn [process_tracks fmap list_fmap]. rewrite process_track_kept.
  destruct (process_track _ _ false _ _ _ st (kept true track)) as [st1|];
    [apply IH|reflexivity].
Qed.

(** ** Instruments *)

Lemma last_program_snoc c l m default :
  last_program c (l ++ [m]) default
  = if on_channel c m && is_program_change m then Message.program m
    else last_program c l default.
Proof. unfold last_program. rewrite foldl_app. reflexivity. Qed.

Lemma on_channel_same m c : Message.channel m = Some c -> on_channel c m = true.
Proof. unfold on_channel. intros ->. apply Nat.eqb_refl. Qed.

Lemma on_channel_other m c c' :
  Message.channel m = Some c' -> c' <> c -> on_channel c m = false.
Proof.
  unfold on_channel. intros -> Hne. apply Nat.eqb_neq. assumption.
Qed.

Lemma on_channel_global m c :
  Message.channel m = None -> on_channel c m = false.
Proof. unfold on_channel. intros ->. reflexivity. Qed.

Lemma process_message_instrument second2tick trim_silence ignore_meta
    cutoff offset tpb st m st' c p :
  process_message second2tick trim_silence ignore_meta cutoff offset tpb st m
  = Some st' ->
  instruments st !! c = Some p ->
  instruments st' !! c
  = Some (last_program c (kept ignore_meta [m]) p).
Proof.
  intros H Hp. unfold kept, last_program. cbn [List.filter].
  apply process_message_inv in H
    as [[Hi ->]|[(Hi & Hg & ->)|(Hi & c' & Hc' & H)]]; rewrite Hi;
    cbn [negb foldl].
  - assumption.
  - rewrite (on_channel_global _ _ Hg). assumption.
  - apply channel_message_inv in H
      as (delta & active & total & _ & _ & _ & [->|(track & _ & ->)]).
    all: cbn [appended booked instruments].
    all: destruct (decide (c' = c)) as [->|Hne];
      [rewrite (on_channel_same _ _ Hc')
      |rewrite (on_channel_other _ _ _ Hc' Hne)]; cbn [andb].
    all: destruct (is_program_change m); try assumption.
    all: try (rewrite list_lookup_insert_ne by assumption; assumption).
    all: rewrite list_lookup_insert_eq; [reflexivity|].
    all: eapply lookup_lt_Some; eassumption.
Qed.

Lemma last_program_app c l1 l2 default :
  last_program c (l1 ++ l2) default
  = last_program c l2 (last_program c l1 default).
Proof. unfold last_program. apply foldl_app. Qed.

Lemma process_track_instrument second2tick trim_silence ignore_meta
    cutoff offset tpb l st st' c p :
  process_track second2tick trim_silence ignore_meta cutoff offset tpb st l
  = Some st' ->
  instruments st !! c = Some p ->
  instruments st' !! c = Some (last_program c (kept ignore_meta l) p).
Proof.
  revert st p. induction l as [|m l IH]; intros st p H Hp; cbn in H.
  - injection H as <-. assumption.
  - destruct (process_message _ _ _ _ _ _ st m) as [st1|] eqn:Hm;
      [|discriminate].
    change (m :: l) with ([m] ++ l). rewrite kept_app, last_program_app.
    apply (IH st1); [assumption|].
    exact (process_message_instrument _ _ _ _ _ _ _ _ _ _ _ Hm Hp).
Qed.

(** X4.  The instrument kept for a channel at the end of the run is the
    program of the last [program_change] of that channel that was read, or
    1 when there was none, whatever the window did with those messages. *)
Theorem instrument_is_last_program_change
    (second2tick : Z -> Z -> Z -> option Q)
    (midi : MidiFile.t) (trim_silence ignore_meta : bool)
    (cutoff offset : option Z) (st : state) (c : nat) :
  (c < 16)%nat ->
  process_tracks second2tick trim_silence ignore_meta cutoff offset
    (MidiFile.ticks_per_beat midi) init_state (MidiFile.tracks midi)
  = Some st ->
  instruments st !! c
  = Some (last_program c (kept ignore_meta (stream midi)) 1).
Proof.
  intros Hc Hrun. rewrite process_tracks_concat in Hrun.
  apply (process_track_instrument _ _ _ _ _ _ _ _ _ _ _ Hrun).
  apply lookup_replicate. split; [reflexivity|assumption].
Qed.

Lemma instrument_is_last_program_change_witness :
  let pc :=
    {| Message.is_meta := false; Message.type := "program_change";
       Message.channel := Some 4%nat; Message.time := 0;
       Message.tempo := 0; Message.program := 33; Message.data := [] |} in
  exists st,
    process_tracks Mido.second2tick true false (Some 1) None 480 init_state
      [[channel_msg "note_on" 4 2000; Message.set_time pc 10]] = Some st /\
    new_tracks st !! 4%nat = Some [] /\
    instruments st !! 4%nat = Some 33.
Proof.
  cbv zeta. eexists. split; [vm_compute; reflexivity|].
  split; [reflexivity|].
  apply (instrument_is_last_program_change Mido.second2tick
           {| MidiFile.ticks_per_beat := 480;
              MidiFile.tracks :=
                [[channel_msg "note_on" 4 2000;
                  {| Message.is_meta := false;
                     Message.type := "program_change";
                     Message.channel := Some 4%nat; Message.time := 10;
                     Message.tempo := 0; Message.program := 33;
                     Message.data := [] |}]] |}
           true false (Some 1) None).
  - lia.
  - vm_compute. reflexivity.
Defined.

(** ** Which files are written *)

Lemma process_message_note_on second2tick trim_silence ignore_meta
    cutoff offset tpb st m st' c a :
  process_message second2tick trim_silence ignore_meta cutoff offset tpb st m
  = Some st' ->
  active_channels st !! c = Some a ->
  active_channels st' !! c
  = Some (a || has_note_on c (kept ignore_meta [m])).
Proof.
  intros H Ha. unfold kept, has_note_on. cbn [List.filter].
  apply process_message_inv in H
    as [[Hi ->]|[(Hi & Hg & ->)|(Hi & c' & Hc' & H)]]; rewrite Hi;
    cbn [negb existsb].
  - rewrite orb_false_r. assumption.
  - rewrite (on_channel_global _ _ Hg). cbn. rewrite orb_false_r. assumption.
  - apply channel_message_inv in H
      as (delta & active & total & _ & _ & _ & [->|(track & _ & ->)]).
    all: cbn [appended booked active_channels].
    all: destruct (decide (c' = c)) as [->|Hne];
      [rewrite (on_channel_same _ _ Hc')
      |rewrite (on_channel_other _ _ _ Hc' Hne)]; cbn [andb orb].
    all: destruct (is_note_on m); rewrite ?orb_false_r, ?orb_true_r;
      try assumption.
    all: try (rewrite list_lookup_insert_ne by assumption; assumption).
    all: rewrite list_lookup_insert_eq; [reflexivity|].
    all: eapply lookup_lt_Some; eassumption.
Qed.

Lemma has_note_on_app c l1 l2 :
  has_note_on c (l1 ++ l2) = has_note_on c l1 || has_note_on c l2.
Proof. unfold has_note_on. apply existsb_app. Qed.

Lemma process_track_note_on second2tick trim_silence ignore_meta
    cutoff offset tpb l st st' c a :
  process_track second2tick trim_silence ignore_meta cutoff offset tpb st l
  = Some st' ->
  active_channels st !! c = Some a ->
  active_channels st' !! c = Some (a || has_note_on c (kept ignore_meta l)).
Proof.
  revert st a. induction l as [|m l IH]; intros st a H Ha; cbn in H.
  - injection H as <-. cbn. rewrite orb_false_r. assumption.
  - destruct (process_message _ _ _ _ _ _ st m) as [st1|] eqn:Hm;
      [|discriminate].
    change (m :: l) with ([m] ++ l).
    rewrite kept_app, has_note_on_app, orb_assoc.
    apply (IH st1); [assumption|].
    exact (process_message_note_on _ _ _ _ _ _ _ _ _ _ _ Hm Ha).
Qed.

(** The files come in the order of the channels, one for each channel
    that passes the test of line 120. *)
Lemma write_files_channels st tpb channels files :
  write_files st tpb channels = Some files ->
  file_channel <$> files = List.filter (is_active st) channels.
Proof.
  revert files. induction channels as [|c channels IH]; intros files H.
  - injection H as <-. reflexivity.
  - cbn in H. cbn [List.filter]. unfold is_active at 1.
    destruct (active_channels st !! c) as [[]|]; cbn in H; [|auto|discriminate].
    destruct (instruments st !! c); [|discriminate].
    destruct (new_tracks st !! c); [|discriminate]. cbn in H.
    destruct (write_files st tpb channels) as [files'|]; [|discriminate].
    injection H as <-. cbn. f_equal. apply IH. reflexivity.
Qed.

(** X5.  The files written are those of the channels for which a note-on
    was read, one each and in the order of the channels; every file has the
    resolution of the source, a single track, and in its name the program
    of the last [program_change] read for its channel (1 if none). *)
Theorem files_are_channels_with_note_on
    (second2tick : Z -> Z -> Z -> option Q)
    (midi : MidiFile.t) (trim_silence ignore_meta : bool)
    (cutoff offset : option Z) (files : list output_file) :
  split_midi second2tick midi trim_silence ignore_meta cutoff offset
  = Some files ->
  file_channel <$> files
  = List.filter (fun c => has_note_on c (kept ignore_meta (stream midi)))
      (seq 0 16) /\
  Forall (fun f =>
            file_ticks_per_beat f = MidiFile.ticks_per_beat midi /\
            file_instrument f
            = last_program (file_channel f)
                (kept ignore_meta (stream midi)) 1 /\
            length (file_tracks f) = 1%nat) files.
Proof.
  unfold split_midi. intros H.
  destruct (process_tracks _ _ _ _ _ _ init_state (MidiFile.tracks midi))
    as [st|] eqn:Hrun; [|discriminate].
  cbn [mbind option_bind] in H.
  pose proof Hrun as Hrun'. rewrite process_tracks_concat in Hrun'.
  fold (stream midi) in Hrun'.
  pose proof (process_track_sixteen _ _ _ _ _ _ _ _ _
                init_state_sixteen Hrun') as (Hn & _).
  rewrite Hn in H. split.
  - rewrite (write_files_channels _ _ _ _ H).
    apply List.filter_ext_in. intros c Hc.
    apply List.in_seq in Hc. unfold is_active.
    rewrite (process_track_note_on _ _ _ _ _ _ _ _ _ c false Hrun').
    + cbn [orb]. destruct (has_note_on c _); reflexivity.
    + apply lookup_replicate. split; [reflexivity|lia].
  - apply Forall_forall. intros f Hf.
    destruct (write_files_only_active _ _ _ _ _ H Hf)
      as (Hin & _ & Hinstr & (track & _ & Htracks) & Htpb).
    split; [assumption|]. split; [|rewrite Htracks; reflexivity].
    apply elem_of_seq in Hin.
    rewrite (instrument_is_last_program_change second2tick midi trim_silence
               ignore_meta cutoff offset st (file_channel f)) in Hinstr
      by (lia || assumption).
    injection Hinstr as <-. reflexivity.
Qed.

Lemma files_are_channels_with_note_on_witness :
  exists files,
    split_midi Mido.second2tick
      {| MidiFile.ticks_per_beat := 96;
         MidiFile.tracks := [[channel_msg "note_on" 9 0;
                              channel_msg "control_change" 3 5];
                             [channel_msg "note_on" 1 0]] |}
      true true None None = Some files /\
    file_channel <$> files = [1%nat; 9%nat].
Proof.
  eexists. split; [vm_compute; reflexivity|].
  exact (proj1 (files_are_channels_with_note_on Mido.second2tick
                  {| MidiFile.ticks_per_beat := 96;
                     MidiFile.tracks := [[channel_msg "note_on" 9 0;
                                          channel_msg "control_change" 3 5];
                                         [channel_msg "note_on" 1 0]] |}
                  true true None None _ eq_refl)).
Defined.

(** ** The total that the window is tested on *)

Lemma carried_app ignore_meta l1 l2 :
  carried ignore_meta (l1 ++ l2)
  = carried ignore_meta l1 + carried ignore_meta l2.
Proof.
  unfold carried. rewrite kept_app, List.filter_app. apply sum_times_app.
Qed.

Lemma carried_channel ignore_meta m c :
  ignored ignore_meta m = false -> Message.channel m = Some c ->
  carried ignore_meta [m] = Message.time m.
Proof.
  intros Hi Hc. unfold carried. rewrite (kept_one _ _ Hi). cbn.
  unfold has_channel. rewrite Hc. cbn. lia.
Qed.

Lemma init_state_on_total_clock : on_total_clock 0 init_state.
Proof.
  intros c total d Ht Hd. unfold init_state in *.
  cbn [total_ticks delta_ticks] in *.
  apply lookup_replicate in Ht as [-> _].
  apply lookup_replicate in Hd as [-> _]. reflexivity.
Qed.

Lemma process_message_on_total_clock second2tick ignore_meta cutoff offset
    tpb T st m st' :
  on_total_clock T st ->
  process_message second2tick false ignore_meta cutoff offset tpb st m
  = Some st' ->
  on_total_clock (T + carried ignore_meta [m]) st'.
Proof.
  intros HP H c total d Ht Hd.
  apply process_message_inv in H
    as [[Hi ->]|[(Hi & Hg & ->)|(Hi & c' & Hc' & H)]].
  - unfold carried, kept. cbn. rewrite Hi. cbn.
    pose proof (HP c total d Ht Hd). lia.
  - unfold carried. rewrite (kept_one _ _ Hi). cbn.
    unfold has_channel. rewrite Hg. cbn.
    pose proof (HP c total d Ht Hd). lia.
  - rewrite (carried_channel _ _ _ Hi Hc').
    apply channel_message_inv in H
      as (delta & active & total0 & Hdelta & _ & Htotal
          & [->|(track & _ & ->)]).
    all: cbn [appended booked total_ticks delta_ticks] in Ht, Hd.
    all: rewrite trimmed_off in Ht.
    all: destruct (decide (c' = c)) as [->|Hne].
    all: try (rewrite list_lookup_insert_eq in Ht
                by (eapply lookup_lt_Some; eassumption);
              rewrite list_lookup_insert_eq in Hd
                by (rewrite length_fmap; eapply lookup_lt_Some; eassumption);
              injection Ht as <-; injection Hd as <-;
              pose proof (HP c total0 delta Htotal Hdelta); lia).
    all: rewrite list_lookup_insert_ne in Ht by assumption.
    all: rewrite list_lookup_insert_ne, list_lookup_fmap in Hd by assumption.
    all: destruct (delta_ticks st !! c) as [d0|] eqn:Hd0; [|discriminate].
    all: injection Hd as <-; pose proof (HP c total d0 Ht Hd0); lia.
Qed.

Lemma process_track_on_total_clock second2tick ignore_meta cutoff offset
    tpb l T st st' :
  on_total_clock T st ->
  process_track second2tick false ignore_meta cutoff offset tpb st l
  = Some st' ->
  on_total_clock (T + carried ignore_meta l) st'.
Proof.
  revert T st. induction l as [|m l IH]; intros T st HP H; cbn in H.
  - injection H as <-. unfold carried. cbn. rewrite Z.add_0_r. assumption.
  - destruct (process_message _ _ _ _ _ _ st m) as [st1|] eqn:Hm;
      [|discriminate].
    change (m :: l) with ([m] ++ l). rewrite carried_app, Z.add_assoc.
    apply (IH _ st1); [|assumption].
    exact (process_message_on_total_clock _ _ _ _ _ _ _ _ _ HP Hm).
Qed.

(** X6.  Without [trim_silence], and whatever the window drops, the total
    of a channel right after one of its messages is read is the position of
    that message on the clock of the channel messages: the sum of the times
    of all channel messages read so far, of any channel.  This is the
    number the window compares with its bounds. *)
Theorem total_ticks_is_clock_position
    (second2tick : Z -> Z -> Z -> option Q)
    (ignore_meta : bool) (cutoff offset : option Z) (ticks_per_beat : Z)
    (pre : list Message.t) (m : Message.t) (c : nat)
    (st_pre st_m : state) :
  ignored ignore_meta m = false ->
  Message.channel m = Some c ->
  process_track second2tick false ignore_meta cutoff offset ticks_per_beat
    init_state pre = Some st_pre ->
  process_message second2tick false ignore_meta cutoff offset ticks_per_beat
    st_pre m = Some st_m ->
  total_ticks st_m !! c = Some (carried ignore_meta (pre ++ [m])).
Proof.
  intros Hi Hc Hpre Hm.
  pose proof (process_track_on_total_clock _ _ _ _ _ _ _ _ _
                init_state_on_total_clock Hpre) as Hclock.
  pose proof (channel_message_resets _ _ _ _ _ _ _ _ _
                (eq_trans (eq_sym (process_message_channel _ _ _ _ _ _ _ _
                                     c Hi Hc)) Hm)) as Hzero.
  pose proof (process_message_on_total_clock _ _ _ _ _ _ _ _ _ Hclock Hm)
    as Hclock'.
  destruct (lookup_lt_is_Some_2 (total_ticks st_m) c) as [total Htotal].
  { pose proof (process_track_sixteen _ _ _ _ _ _ _ _ _
                  init_state_sixteen Hpre) as H16.
    pose proof (process_message_sixteen _ _ _ _ _ _ _ _ _ H16 Hm)
      as (_ & Hd & Ht & _).
    rewrite Ht, <- Hd. eapply lookup_lt_Some; eassumption. }
  rewrite Htotal. f_equal.
  pose proof (Hclock' c total 0 Htotal Hzero).
  rewrite carried_app. lia.
Qed.

Lemma total_ticks_is_clock_position_witness :
  let a := channel_msg "note_on" 0 500 in
  let b := channel_msg "note_on" 1 700 in
  let g := meta_msg "set_tempo" 40 250000 in
  let m := channel_msg "note_off" 0 800 in
  exists st_pre st_m,
    process_track Mido.second2tick false false (Some 1) None 480 init_state
      [a; b; g] = Some st_pre /\
    process_message Mido.second2tick false false (Some 1) None 480 st_pre m
    = Some st_m /\
    new_tracks st_m !! 0%nat = Some [a; g] /\
    total_ticks st_m !! 0%nat = Some 2000.
Proof.
  cbv zeta. eexists _, _. split; [vm_compute; reflexivity|].
  split; [vm_compute; reflexivity|]. split; [reflexivity|].
  refine (total_ticks_is_clock_position Mido.second2tick false (Some 1) None
            480 [channel_msg "note_on" 0 500; channel_msg "note_on" 1 700;
                 meta_msg "set_tempo" 40 250000]
            (channel_msg "note_off" 0 800) 0%nat _ _ eq_refl eq_refl _ _).
  - vm_compute. reflexivity.
  - vm_compute. reflexivity.
Defined.

(** ** After the cutoff *)

Lemma trimmed_nonneg trim_silence x : 0 <= x -> 0 <= trimmed trim_silence x.
Proof.
  unfold trimmed. intros Hx.
  destruct (trim_silence && (10000 <? x)); lia.
Qed.

(** A message that is past the cutoff is booked and nothing else. *)
Lemma channel_message_cut second2tick trim_silence cutoff offset tpb
    st m c st' delta total :
  delta_ticks st !! c = Some delta ->
  total_ticks st !! c = Some total ->
  past_cutoff second2tick cutoff tpb (tempo st)
    (total + trimmed trim_silence (delta + Message.time m)) = Some true ->
  channel_message second2tick trim_silence cutoff offset tpb st m c
  = Some st' ->
  st' = booked trim_silence st m c delta total.
Proof.
  intros Hd Ht Hcut H. unfold channel_message in H.
  rewrite Hd in H. cbn [mbind option_bind] in H.
  destruct (active_channels st !! c) as [active|]; [|discriminate].
  cbn [mbind option_bind] in H.
  unfold booked, is_program_change, is_note_on. unfold list_assign in H.
  destruct (String.eqb (Message.type m) "program_change");
    [case_decide; [|discriminate]|]; cbn [mbind option_bind] in H;
    rewrite Ht in H; cbn [mbind option_bind] in H;
    rewrite Hcut in H; cbn [mbind option_bind] in H.
  all: injection H as <-; reflexivity.
Qed.

Lemma process_message_after_cutoff second2tick trim_silence ignore_meta
    cutoff offset tpb st m st' c s q total out :
  truthy cutoff = Some s ->
  second2tick s tpb (tempo st) = Some q ->
  total_ticks st !! c = Some total ->
  (q <= inject_Z total)%Q ->
  Forall (fun d => 0 <= d) (delta_ticks st) ->
  0 <= Message.time m -> is_set_tempo m = false ->
  new_tracks st !! c = Some out ->
  process_message second2tick trim_silence ignore_meta cutoff offset tpb st m
  = Some st' ->
  tempo st' = tempo st /\
  Forall (fun d => 0 <= d) (delta_ticks st') /\
  (exists total', total_ticks st' !! c = Some total' /\ total <= total') /\
  new_tracks st' !! c
  = Some (out ++ List.filter (fun x => negb (has_channel x))
                   (kept ignore_meta [m])).
Proof.
  intros Hs Hq Ht Hle Hdelta Htime Htempo Hout H. unfold kept.
  cbn [List.filter].
  apply process_message_inv in H
    as [[Hi ->]|[(Hi & Hg & ->)|(Hi & c' & Hc' & H)]]; rewrite Hi;
    cbn [negb List.filter].
  - rewrite app_nil_r. split_and!; try trivial.
    exists total. split; [trivial|lia].
  - unfold has_channel at 1. rewrite Hg. cbn [negb].
    unfold is_set_tempo in Htempo. cbn. rewrite Htempo.
    split_and!; try trivial.
    + exists total. split; [trivial|lia].
    + rewrite list_lookup_fmap, Hout. reflexivity.
  - unfold has_channel at 1. rewrite Hc'. cbn [negb]. rewrite app_nil_r.
    assert (Forall (fun d => 0 <= d)
              (<[c' := 0]> ((fun d => d + Message.time m) <$> delta_ticks st)))
      as Hdelta'.
    { apply Forall_insert; [|lia]. apply Forall_fmap.
      eapply Forall_impl; [exact Hdelta|]. cbn. intros d Hd. lia. }
    destruct (decide (c' = c)) as [->|Hne].
    + pose proof H as H'.
      apply channel_message_inv in H'
        as (delta & active & total0 & Hd0 & _ & Ht0 & _).
      rewrite Ht in Ht0. injection Ht0 as <-.
      assert (0 <= delta) as Hdnn
        by exact (proj1 (Forall_lookup _ _) Hdelta c delta Hd0).
      pose proof (trimmed_nonneg trim_silence (delta + Message.time m)
                    ltac:(lia)) as Hnn.
      assert (past_cutoff second2tick cutoff tpb (tempo st)
                (total + trimmed trim_silence (delta + Message.time m))
              = Some true) as Hcut.
      { unfold past_cutoff. rewrite Hs, Hq. cbn. f_equal.
        apply Qle_bool_iff. eapply Qle_trans; [exact Hle|].
        rewrite <- Zle_Qle. lia. }
      rewrite (channel_message_cut _ _ _ _ _ _ _ _ _ _ _ Hd0 Ht Hcut H).
      cbn. split_and!; try trivial.
      eexists. split; [|apply Z.le_sub_le_add_l; rewrite Z.sub_diag;
                         exact Hnn].
      rewrite list_lookup_insert_eq; [reflexivity|].
      eapply lookup_lt_Some; eassumption.
    + apply channel_message_inv in H
        as (delta & active & total0 & _ & _ & _ & [->|(track & _ & ->)]).
      all: cbn; split_and!; try trivial.
      all: try (exists total; split; [|lia];
                rewrite list_lookup_insert_ne by assumption; assumption).
      rewrite list_lookup_insert_ne by assumption. assumption.
Qed.

(** X7.  Once the total of a channel has reached the cutoff, and as long as
    no [set_tempo] comes and no time is negative, every further message of
    that channel is dropped: only messages without channel are still added
    to its new track. *)
Theorem cutoff_is_final
    (second2tick : Z -> Z -> Z -> option Q)
    (trim_silence ignore_meta : bool) (cutoff offset : option Z)
    (ticks_per_beat : Z) (st : state) (l : list Message.t) (st' : state)
    (c : nat) (s : Z) (q : Q) (total : Z) (out : list Message.t) :
  truthy cutoff = Some s ->
  second2tick s ticks_per_beat (tempo st) = Some q ->
  total_ticks st !! c = Some total ->
  (q <= inject_Z total)%Q ->
  Forall (fun d => 0 <= d) (delta_ticks st) ->
  Forall (fun m => 0 <= Message.time m /\ is_set_tempo m = false) l ->
  new_tracks st !! c = Some out ->
  process_track second2tick trim_silence ignore_meta cutoff offset
    ticks_per_beat st l = Some st' ->
  new_tracks st' !! c
  = Some (out ++ List.filter (fun x => negb (has_channel x))
                   (kept ignore_meta l)).
Proof.
  intros Hs Hq Ht Hle Hdelta Hl. revert st total out Hq Ht Hle Hdelta.
  induction Hl as [|m l [Htime Htempo] _ IH];
    intros st total out Hq Ht Hle Hdelta Hout H; cbn in H.
  - injection H as <-. cbn. rewrite app_nil_r. assumption.
  - destruct (process_message _ _ _ _ _ _ st m) as [st1|] eqn:Hm;
      [|discriminate].
    destruct (process_message_after_cutoff _ _ _ _ _ _ _ _ _ _ _ _ _ _
                Hs Hq Ht Hle Hdelta Htime Htempo Hout Hm)
      as (Htempo1 & Hdelta1 & (total1 & Ht1 & Hle1) & Hout1).
    change (m :: l) with ([m] ++ l).
    rewrite kept_app, List.filter_app, app_assoc.
    apply (IH st1 total1); try assumption.
    + rewrite Htempo1. assumption.
    + eapply Qle_trans; [exact Hle|]. rewrite <- Zle_Qle. assumption.
Qed.

Lemma cutoff_is_final_witness :
  let st := booked true init_state (channel_msg "note_on" 0 1000) 0 0 0 in
  let e := meta_msg "end_of_track" 0 0 in
  exists st',
    process_track Mido.second2tick true false (Some 1) None 480 st
      [channel_msg "note_off" 0 100; channel_msg "note_on" 1 10; e]
    = Some st' /\
    new_tracks st' !! 0%nat = Some [e] /\
    new_tracks st' !! 1%nat = Some [e].
Proof.
  cbv zeta. eexists. split; [vm_compute; reflexivity|].
  split; [|reflexivity].
  refine (cutoff_is_final Mido.second2tick true false (Some 1) None 480
            (booked true init_state (channel_msg "note_on" 0 1000) 0 0 0)
            [channel_msg "note_off" 0 100; channel_msg "note_on" 1 10;
             meta_msg "end_of_track" 0 0]
            _ 0%nat 1 (480000000 # 500000) 1000 [] eq_refl _ _ _ _ _ _ _).
  - vm_compute. reflexivity.
  - reflexivity.
  - unfold Qle. cbn. lia.
  - vm_compute. repeat constructor; discriminate.
  - repeat constructor; discriminate.
  - reflexivity.
  - vm_compute. reflexivity.
Defined.

(** ** What is on a new track *)

Lemma untimed_set_time m t : untimed (Message.set_time m t) = untimed m.
Proof. reflexivity. Qed.

Lemma for_channel_global m c :
  Message.channel m = None -> for_channel c m = true.
Proof. unfold for_channel, has_channel. intros ->. reflexivity. Qed.

Lemma for_channel_same m c :
  Message.channel m = Some c -> for_channel c m = true.
Proof.
  intros H. unfold for_channel. rewrite (on_channel_same _ _ H).
  apply orb_true_r.
Qed.

Lemma for_channel_other m c c' :
  Message.channel m = Some c' -> c' <> c -> for_channel c m = false.
Proof.
  intros H Hne. unfold for_channel, has_channel.
  rewrite (on_channel_other _ _ _ H Hne), H. reflexivity.
Qed.

(** What one message adds to the new track of channel [c], against what
    the message is. *)
Lemma process_message_adds second2tick trim_silence ignore_meta cutoff
    offset tpb st m st' c out :
  process_message second2tick trim_silence ignore_meta cutoff offset tpb st m
  = Some st' ->
  new_tracks st !! c = Some out ->
  exists ext,
    new_tracks st' !! c = Some (out ++ ext) /\
    untimed <$> ext
      `sublist_of` untimed <$> List.filter (for_channel c)
                                 (kept ignore_meta [m]) /\
    List.filter (fun x => negb (has_channel x)) ext
    = List.filter (fun x => negb (has_channel x)) (kept ignore_meta [m]) /\
    (truthy cutoff = None -> truthy offset = None ->
     untimed <$> ext
     = untimed <$> List.filter (for_channel c) (kept ignore_meta [m])).
Proof.
  intros H Hout. unfold kept. cbn [List.filter].
  pose proof H as H0.
  apply process_message_inv in H
    as [[Hi ->]|[(Hi & Hg & ->)|(Hi & c' & Hc' & H)]]; rewrite Hi;
    cbn [negb List.filter].
  - exists []. rewrite app_nil_r. split_and!; trivial.
  - exists [m]. rewrite (for_channel_global _ c Hg).
    unfold has_channel. rewrite Hg. cbn.
    rewrite list_lookup_fmap, Hout, ?Hg. split_and!; try reflexivity; trivial.
  - unfold has_channel at 2. rewrite Hc'. cbn [negb].
    destruct (decide (c' = c)) as [->|Hne].
    + rewrite (for_channel_same _ _ Hc').
      pose proof H as H'.
      apply channel_message_inv in H'
        as (delta & active & total & _ & _ & _ & [->|(track & Hn & ->)]).
      * exists []. rewrite app_nil_r. split_and!; trivial.
        -- apply sublist_nil_l.
        -- intros Hcut Hoff.
           apply (channel_message_no_window _ _ _ _ _ _ _ _ _ Hcut Hoff) in H
             as (d' & a' & t' & track' & _ & _ & _ & Hn' & Heq).
           apply (f_equal new_tracks) in Heq. cbn in Heq.
           apply (f_equal (fun l => length <$> l !! c)) in Heq.
           rewrite list_lookup_insert_eq in Heq
             by (eapply lookup_lt_Some; eassumption).
           rewrite Hn' in Heq. cbn in Heq. rewrite length_app in Heq.
           cbn in Heq. injection Heq as Heq. lia.
      * rewrite Hout in Hn. injection Hn as <-. eexists. split.
        { cbn. rewrite list_lookup_insert_eq; [reflexivity|].
          eapply lookup_lt_Some; eassumption. }
        cbn. unfold has_channel. cbn. rewrite Hc'. cbn.
        split_and!; trivial.
    + rewrite (for_channel_other _ _ _ Hc' Hne).
      exists []. rewrite app_nil_r.
      apply channel_message_inv in H
        as (delta & active & total & _ & _ & _ & [->|(track & _ & ->)]).
      all: cbn; rewrite ?list_lookup_insert_ne by assumption.
      all: split_and!; trivial.
Qed.

Lemma process_track_adds second2tick trim_silence ignore_meta cutoff
    offset tpb l st st' c out :
  process_track second2tick trim_silence ignore_meta cutoff offset tpb st l
  = Some st' ->
  new_tracks st !! c = Some out ->
  exists ext,
    new_tracks st' !! c = Some (out ++ ext) /\
    untimed <$> ext
      `sublist_of` untimed <$> List.filter (for_channel c)
                                 (kept ignore_meta l) /\
    List.filter (fun x => negb (has_channel x)) ext
    = List.filter (fun x => negb (has_channel x)) (kept ignore_meta l) /\
    (truthy cutoff = None -> truthy offset = None ->
     untimed <$> ext
     = untimed <$> List.filter (for_channel c) (kept ignore_meta l)).
Proof.
  revert st out. induction l as [|m l IH]; intros st out H Hout; cbn in H.
  - injection H as <-. exists []. rewrite app_nil_r. split_and!; trivial.
  - destruct (process_message _ _ _ _ _ _ st m) as [st1|] eqn:Hm;
      [|discriminate].
    destruct (process_message_adds _ _ _ _ _ _ _ _ _ _ _ Hm Hout)
      as (ext1 & Hout1 & Hsub1 & Hglob1 & Heq1).
    destruct (IH _ _ H Hout1) as (ext2 & Hout2 & Hsub2 & Hglob2 & Heq2).
    exists (ext1 ++ ext2). change (m :: l) with ([m] ++ l).
    rewrite kept_app, !List.filter_app, !fmap_app, app_assoc.
    split_and!; trivial.
    + apply sublist_app; assumption.
    + rewrite Hglob1, Hglob2. reflexivity.
    + intros Hcut Hoff. rewrite (Heq1 Hcut Hoff), (Heq2 Hcut Hoff).
      reflexivity.
Qed.

(** X8.  Whatever the arguments, the new track of a channel [c] holds, in
    the order of the file and with nothing but the time changed, some of
    the messages read that are of channel [c] or without channel, and no
    other message; and it holds all the messages without channel that were
    read, time included. *)
Theorem new_track_is_part_of_the_file
    (second2tick : Z -> Z -> Z -> option Q)
    (midi : MidiFile.t) (trim_silence ignore_meta : bool)
    (cutoff offset : option Z) (st : state) (c : nat)
    (out : list Message.t) :
  process_tracks second2tick trim_silence ignore_meta cutoff offset
    (MidiFile.ticks_per_beat midi) init_state (MidiFile.tracks midi)
  = Some st ->
  new_tracks st !! c = Some out ->
  untimed <$> out
    `sublist_of` untimed <$> List.filter (for_channel c)
                               (kept ignore_meta (stream midi)) /\
  List.filter (fun x => negb (has_channel x)) out
  = List.filter (fun x => negb (has_channel x))
      (kept ignore_meta (stream midi)).
Proof.
  intros Hrun Hout. rewrite process_tracks_concat in Hrun.
  assert (c < 16)%nat as Hc.
  { pose proof (process_track_sixteen _ _ _ _ _ _ _ _ _
                  init_state_sixteen Hrun) as (Hn & _).
    rewrite <- Hn. eapply lookup_lt_Some; eassumption. }
  assert (new_tracks init_state !! c = Some []) as Hinit
    by (apply lookup_replicate; split; trivial).
  destruct (process_track_adds _ _ _ _ _ _ _ _ _ _ _ Hrun Hinit)
    as (ext & Hext & Hsub & Hglob & _).
  cbn [app] in Hext. rewrite Hout in Hext. injection Hext as ->.
  split; assumption.
Qed.

Lemma new_track_is_part_of_the_file_witness :
  let a := channel_msg "note_on" 0 0 in
  let b := channel_msg "note_on" 1 30 in
  let g := meta_msg "set_tempo" 5 600000 in
  let d := channel_msg "note_off" 0 2000 in
  let midi :=
    {| MidiFile.ticks_per_beat := 480; MidiFile.tracks := [[a; b; g; d]] |} in
  untimed <$> [g; Message.set_time d 2030]
    `sublist_of` untimed <$> List.filter (for_channel 0)
                               (kept false (stream midi)) /\
  List.filter (fun x => negb (has_channel x)) [g; Message.set_time d 2030]
  = List.filter (fun x => negb (has_channel x)) (kept false (stream midi)).
Proof.
  cbv zeta.
  refine (new_track_is_part_of_the_file Mido.second2tick
            {| MidiFile.ticks_per_beat := 480;
               MidiFile.tracks :=
                 [[channel_msg "note_on" 0 0; channel_msg "note_on" 1 30;
                   meta_msg "set_tempo" 5 600000;
                   channel_msg "note_off" 0 2000]] |}
            false false None (Some 1) _ 0%nat _ _ _).
  - vm_compute. reflexivity.
  - reflexivity.
Defined.

(** X9.  Without window nothing is dropped: the new track of a channel [c]
    holds exactly the messages read that are of channel [c] or without
    channel, in the order of the file, with nothing but the time changed;
    no message of another channel, none twice, none missing. *)
Theorem new_track_without_window
    (second2tick : Z -> Z -> Z -> option Q)
    (midi : MidiFile.t) (trim_silence ignore_meta : bool)
    (cutoff offset : option Z) (st : state) (c : nat)
    (out : list Message.t) :
  truthy cutoff = None -> truthy offset = None ->
  process_tracks second2tick trim_silence ignore_meta cutoff offset
    (MidiFile.ticks_per_beat midi) init_state (MidiFile.tracks midi)
  = Some st ->
  new_tracks st !! c = Some out ->
  untimed <$> out
  = untimed <$> List.filter (for_channel c)
                  (kept ignore_meta (stream midi)).
Proof.
  intros Hcut Hoff Hrun Hout. rewrite process_tracks_concat in Hrun.
  assert (c < 16)%nat as Hc.
  { pose proof (process_track_sixteen _ _ _ _ _ _ _ _ _
                  init_state_sixteen Hrun) as (Hn & _).
    rewrite <- Hn. eapply lookup_lt_Some; eassumption. }
  assert (new_tracks init_state !! c = Some []) as Hinit
    by (apply lookup_replicate; split; trivial).
  destruct (process_track_adds _ _ _ _ _ _ _ _ _ _ _ Hrun Hinit)
    as (ext & Hext & _ & _ & Heq).
  cbn [app] in Hext. rewrite Hout in Hext. injection Hext as ->.
  exact (Heq Hcut Hoff).
Qed.

Lemma new_track_without_window_witness :
  let a := channel_msg "note_on" 0 7 in
  let b := channel_msg "note_on" 1 30 in
  let t := meta_msg "lyrics" 9 0 in
  let g := meta_msg "set_tempo" 5 600000 in
  let d := channel_msg "note_off" 0 20000 in
  let midi :=
    {| MidiFile.ticks_per_beat := 480;
       MidiFile.tracks := [[a; b; t]; [g; d]] |} in
  untimed <$> [Message.set_time a 0; g; Message.set_time d 10000]
  = untimed <$> List.filter (for_channel 0) (kept true (stream midi)).
Proof.
  cbv zeta.
  refine (new_track_without_window Mido.second2tick
            {| MidiFile.ticks_per_beat := 480;
               MidiFile.tracks :=
                 [[channel_msg "note_on" 0 7; channel_msg "note_on" 1 30;
                   meta_msg "lyrics" 9 0];
                  [meta_msg "set_tempo" 5 600000;
                   channel_msg "note_off" 0 20000]] |}
            true true None (Some 0) _ 0%nat _ eq_refl eq_refl _ _).
  - vm_compute. reflexivity.
  - reflexivity.
Defined.

(** ** A file with one channel and messages without channel *)

Lemma process_message_one_channel second2tick ignore_meta cutoff offset tpb
    k st m st' out :
  truthy cutoff = None -> truthy offset = None ->
  (forall c, Message.channel m = Some c -> c = k) ->
  delta_ticks st !! k = Some 0 ->
  new_tracks st !! k = Some out ->
  process_message second2tick false ignore_meta cutoff offset tpb st m
  = Some st' ->
  delta_ticks st' !! k = Some 0 /\
  new_tracks st' !! k = Some (out ++ kept ignore_meta [m]) /\
  forall j out_j, j <> k -> new_tracks st !! j = Some out_j ->
    new_tracks st' !! j
    = Some (out_j ++ List.filter (fun x => negb (has_channel x))
                       (kept ignore_meta [m])).
Proof.
  intros Hcut Hoff Hk Hzero Hout H. unfold kept. cbn [List.filter].
  apply process_message_inv in H
    as [[Hi ->]|[(Hi & Hg & ->)|(Hi & c' & Hc' & H)]]; rewrite Hi;
    cbn [negb List.filter].
  - rewrite app_nil_r. split_and!; trivial.
    intros j out_j _ Hj. rewrite app_nil_r. assumption.
  - unfold has_channel. rewrite Hg. cbn.
    rewrite list_lookup_fmap, Hout. split_and!; trivial.
    intros j out_j _ Hj. rewrite list_lookup_fmap, Hj. reflexivity.
  - pose proof (Hk c' Hc') as ->.
    unfold has_channel. rewrite Hc'. cbn [negb].
    apply (channel_message_no_window _ _ _ _ _ _ _ _ _ Hcut Hoff) in H
      as (delta & active & total & track & Hd & _ & _ & Hn & ->).
    rewrite Hzero in Hd. injection Hd as <-.
    rewrite Hout in Hn. injection Hn as <-.
    rewrite corrected_off, trimmed_off, Z.add_0_l, set_time_same.
    cbn. split_and!.
    + rewrite list_lookup_insert_eq; [reflexivity|].
      rewrite length_fmap. eapply lookup_lt_Some; eassumption.
    + rewrite list_lookup_insert_eq; [reflexivity|].
      eapply lookup_lt_Some; eassumption.
    + intros j out_j Hne Hj. rewrite app_nil_r.
      rewrite list_lookup_insert_ne by congruence. assumption.
Qed.

Lemma process_track_one_channel second2tick ignore_meta cutoff offset tpb
    k l st st' out :
  truthy cutoff = None -> truthy offset = None ->
  Forall (fun m => forall c, Message.channel m = Some c -> c = k) l ->
  delta_ticks st !! k = Some 0 ->
  new_tracks st !! k = Some out ->
  process_track second2tick false ignore_meta cutoff offset tpb st l
  = Some st' ->
  new_tracks st' !! k = Some (out ++ kept ignore_meta l) /\
  forall j out_j, j <> k -> new_tracks st !! j = Some out_j ->
    new_tracks st' !! j
    = Some (out_j ++ List.filter (fun x => negb (has_channel x))
                       (kept ignore_meta l)).
Proof.
  intros Hcut Hoff Hl. revert st out.
  induction Hl as [|m l Hm _ IH]; intros st out Hzero Hout H; cbn in H.
  - injection H as <-. cbn. rewrite app_nil_r. split; [assumption|].
    intros j out_j _ Hj. rewrite app_nil_r. assumption.
  - destruct (process_message _ _ _ _ _ _ st m) as [st1|] eqn:Hst1;
      [|discriminate].
    destruct (process_message_one_channel _ _ _ _ _ _ _ _ _ _
                Hcut Hoff Hm Hzero Hout Hst1) as (Hzero1 & Hout1 & Hrest1).
    destruct (IH st1 _ Hzero1 Hout1 H) as (Hout' & Hrest').
    change (m :: l) with ([m] ++ l).
    rewrite kept_app, List.filter_app, !app_assoc. split; [assumption|].
    intros j out_j Hne Hj. rewrite app_assoc.
    exact (Hrest' j _ Hne (Hrest1 j out_j Hne Hj)).
Qed.

(** X10.  Without [trim_silence] and without window, when all channel
    messages of a file are on one channel [k], the new track of [k] is the
    file itself, times included, less the messages that are skipped; the
    other new tracks hold the messages without channel and nothing else. *)
Theorem one_channel_file_is_kept
    (second2tick : Z -> Z -> Z -> option Q)
    (midi : MidiFile.t) (ignore_meta : bool) (cutoff offset : option Z)
    (k : nat) (st : state) :
  truthy cutoff = None -> truthy offset = None ->
  (k < 16)%nat ->
  Forall (fun m => forall c, Message.channel m = Some c -> c = k)
    (stream midi) ->
  process_tracks second2tick false ignore_meta cutoff offset
    (MidiFile.ticks_per_beat midi) init_state (MidiFile.tracks midi)
  = Some st ->
  new_tracks st !! k = Some (kept ignore_meta (stream midi)) /\
  forall j, (j < 16)%nat -> j <> k ->
    new_tracks st !! j
    = Some (List.filter (fun x => negb (has_channel x))
              (kept ignore_meta (stream midi))).
Proof.
  intros Hcut Hoff Hk Hall Hrun. rewrite process_tracks_concat in Hrun.
  fold (stream midi) in Hrun.
  assert (delta_ticks init_state !! k = Some 0) as Hzero
    by (apply lookup_replicate; split; trivial).
  assert (new_tracks init_state !! k = Some []) as Hout
    by (apply lookup_replicate; split; trivial).
  destruct (process_track_one_channel _ _ _ _ _ _ _ _ _ _
              Hcut Hoff Hall Hzero Hout Hrun) as (Hk' & Hrest).
  split; [exact Hk'|].
  intros j Hj Hne. apply (Hrest j [] Hne).
  apply lookup_replicate. split; trivial.
Qed.

Lemma one_channel_file_is_kept_witness :
  let l := [meta_msg "track_name" 0 0; meta_msg "set_tempo" 0 300000;
            channel_msg "note_on" 5 90; channel_msg "note_off" 5 30000;
            meta_msg "end_of_track" 1 0] in
  exists st,
    process_tracks Mido.second2tick false true None None 480 init_state [l]
    = Some st /\
    new_tracks st !! 5%nat = Some (kept true l) /\
    kept true l
    = [meta_msg "set_tempo" 0 300000; channel_msg "note_on" 5 90;
       channel_msg "note_off" 5 30000; meta_msg "end_of_track" 1 0].
Proof.
  cbv zeta. eexists. split; [vm_compute; reflexivity|].
  split; [|reflexivity].
  refine (proj1 (one_channel_file_is_kept Mido.second2tick
                   {| MidiFile.ticks_per_beat := 480;
                      MidiFile.tracks :=
                        [[meta_msg "track_name" 0 0;
                          meta_msg "set_tempo" 0 300000;
                          channel_msg "note_on" 5 90;
                          channel_msg "note_off" 5 30000;
                          meta_msg "end_of_track" 1 0]] |}
                   true None None 5%nat _ eq_refl eq_refl _ _ _)).
  - lia.
  - repeat constructor; intros c H; try discriminate;
      injection H as <-; reflexivity.
  - vm_compute. reflexivity.
Defined.

(** ** The files on the disk *)

Section Saved.

Variable fs : Type.
Variable isdir : fs -> string -> bool.
Variable mkdir : fs -> string -> option fs.
Variable save : fs -> string -> output_file -> option fs.
Variable join : string -> string -> string.

Lemma write_files_cons_active st tpb c rest instrument track :
  active_channels st !! c = Some true ->
  instruments st !! c = Some instrument ->
  new_tracks st !! c = Some track ->
  write_files st tpb (c :: rest)
  = files ← write_files st tpb rest;
    Some ({| file_instrument := instrument; file_channel := c;
             file_ticks_per_beat := tpb; file_tracks := [track] |}
          :: files).
Proof. intros Ha Hi Hn. cbn. rewrite Ha. cbn. rewrite Hi, Hn. reflexivity. Qed.

Lemma write_files_cons_inactive st tpb c rest :
  active_channels st !! c = Some false ->
  write_files st tpb (c :: rest) = write_files st tpb rest.
Proof. intros Ha. cbn. rewrite Ha. reflexivity. Qed.

(** Without [split_dir] the files go to [output_dir], one after the
    other. *)
Lemma save_files_flat st tpb output_dir name split_dir channels disk :
  truthy_str split_dir = None ->
  sixteen st -> Forall (fun c => (c < 16)%nat) channels ->
  save_files fs isdir mkdir save join st tpb output_dir name split_dir disk
    channels
  = files ← write_files st tpb channels;
    save_all fs save join output_dir name disk files.
Proof.
  intros Hdir H16 Hcs. pose proof H16 as (Hn & _ & _ & Hi & Ha).
  revert disk. induction Hcs as [|c channels Hc Hcs IH]; intros disk;
    [reflexivity|].
  destruct (lookup_lt_is_Some_2 (active_channels st) c) as [active Hactive];
    [lia|].
  destruct (lookup_lt_is_Some_2 (instruments st) c) as [instrument Hinstr];
    [lia|].
  destruct (lookup_lt_is_Some_2 (new_tracks st) c) as [track Htrack]; [lia|].
  destruct (write_files_total st tpb channels H16 Hcs) as [files Hfiles].
  cbn [save_files]. rewrite Hactive. cbn [mbind option_bind].
  destruct active.
  - rewrite (write_files_cons_active _ _ _ _ _ _ Hactive Hinstr Htrack).
    unfold place. rewrite Hdir, Hinstr, Htrack, Hfiles.
    cbn [mbind option_bind fst snd save_all file_instrument file_channel].
    destruct (save disk _ _) as [disk'|]; [|reflexivity].
    cbn [mbind option_bind]. rewrite IH, Hfiles. reflexivity.
  - rewrite (write_files_cons_inactive _ _ _ _ Hactive). apply IH.
Qed.

(** With a [split_dir] that is not ["file"] the first file to write makes
    the loop raise. *)
Lemma save_files_not_by_file st tpb output_dir name split_dir key channels
    disk :
  truthy_str split_dir = Some key -> key <> "file" ->
  sixteen st -> Forall (fun c => (c < 16)%nat) channels ->
  save_files fs isdir mkdir save join st tpb output_dir name split_dir disk
    channels
  = files ← write_files st tpb channels;
    match files with [] => Some disk | _ :: _ => None end.
Proof.
  intros Hdir Hkey H16 Hcs. pose proof H16 as (Hn & _ & _ & Hi & Ha).
  induction Hcs as [|c channels Hc Hcs IH]; [reflexivity|].
  destruct (lookup_lt_is_Some_2 (active_channels st) c) as [active Hactive];
    [lia|].
  destruct (lookup_lt_is_Some_2 (instruments st) c) as [instrument Hinstr];
    [lia|].
  destruct (lookup_lt_is_Some_2 (new_tracks st) c) as [track Htrack]; [lia|].
  destruct (write_files_total st tpb channels H16 Hcs) as [files Hfiles].
  cbn [save_files]. rewrite Hactive. cbn [mbind option_bind].
  destruct active.
  - rewrite (write_files_cons_active _ _ _ _ _ _ Hactive Hinstr Htrack).
    rewrite Hfiles. cbn [mbind option_bind].
    unfold place. rewrite Hdir, Hinstr. cbn [mbind option_bind].
    unfold dir_name.
    destruct (String.eqb key "instrument"); [reflexivity|].
    destruct (String.eqb key "channel"); [reflexivity|].
    destruct (String.eqb_spec key "file"); [contradiction|reflexivity].
  - rewrite (write_files_cons_inactive _ _ _ _ Hactive). apply IH.
Qed.

(** In a folder that is there, and stays there when a file is saved. *)
Lemma save_files_by_file_there st tpb output_dir name split_dir channels
    disk :
  truthy_str split_dir = Some "file" ->
  (forall d path f d', save d path f = Some d' ->
     isdir d' (join output_dir (drop_last_four name))
     = isdir d (join output_dir (drop_last_four name))) ->
  sixteen st -> Forall (fun c => (c < 16)%nat) channels ->
  isdir disk (join output_dir (drop_last_four name)) = true ->
  save_files fs isdir mkdir save join st tpb output_dir name split_dir disk
    channels
  = files ← write_files st tpb channels;
    save_all fs save join (join output_dir (drop_last_four name)) name disk
      files.
Proof.
  intros Hdir Hkeeps H16 Hcs. pose proof H16 as (Hn & _ & _ & Hi & Ha).
  revert disk. induction Hcs as [|c channels Hc Hcs IH]; intros disk Hthere;
    [reflexivity|].
  destruct (lookup_lt_is_Some_2 (active_channels st) c) as [active Hactive];
    [lia|].
  destruct (lookup_lt_is_Some_2 (instruments st) c) as [instrument Hinstr];
    [lia|].
  destruct (lookup_lt_is_Some_2 (new_tracks st) c) as [track Htrack]; [lia|].
  destruct (write_files_total st tpb channels H16 Hcs) as [files Hfiles].
  cbn [save_files]. rewrite Hactive. cbn [mbind option_bind].
  destruct active.
  - rewrite (write_files_cons_active _ _ _ _ _ _ Hactive Hinstr Htrack).
    unfold place. rewrite Hdir, Hinstr. cbn [mbind option_bind].
    unfold dir_name. cbn [String.eqb Ascii.eqb Bool.eqb].
    cbn [mbind option_bind join_value]. rewrite Hthere, Htrack, Hfiles.
    cbn [mbind option_bind fst snd save_all file_instrument file_channel].
    destruct (save disk _ _) as [disk'|] eqn:Hsave; [|reflexivity].
    cbn [mbind option_bind]. rewrite IH, Hfiles; [reflexivity|].
    rewrite (Hkeeps _ _ _ _ Hsave). assumption.
  - rewrite (write_files_cons_inactive _ _ _ _ Hactive). apply IH.
    assumption.
Qed.

(** The folder is made when the first file is to be saved, if it is not
    there yet. *)
Lemma save_files_by_file st tpb output_dir name split_dir channels disk :
  truthy_str split_dir = Some "file" ->
  (forall d d', mkdir d (join output_dir (drop_last_four name)) = Some d' ->
     isdir d' (join output_dir (drop_last_four name)) = true) ->
  (forall d path f d', save d path f = Some d' ->
     isdir d' (join output_dir (drop_last_four name))
     = isdir d (join output_dir (drop_last_four name))) ->
  sixteen st -> Forall (fun c => (c < 16)%nat) channels ->
  save_files fs isdir mkdir save join st tpb output_dir name split_dir disk
    channels
  = files ← write_files st tpb channels;
    match files with
    | [] => Some disk
    | _ :: _ =>
        disk' ← (if isdir disk (join output_dir (drop_last_four name))
                 then Some disk
                 else mkdir disk (join output_dir (drop_last_four name)));
        save_all fs save join (join output_dir (drop_last_four name)) name
          disk' files
    end.
Proof.
  intros Hdir Hmade Hkeeps H16 Hcs. pose proof H16 as (Hn & _ & _ & Hi & Ha).
  induction Hcs as [|c channels Hc Hcs IH]; [reflexivity|].
  destruct (lookup_lt_is_Some_2 (active_channels st) c) as [active Hactive];
    [lia|].
  destruct (lookup_lt_is_Some_2 (instruments st) c) as [instrument Hinstr];
    [lia|].
  destruct (lookup_lt_is_Some_2 (new_tracks st) c) as [track Htrack]; [lia|].
  destruct (write_files_total st tpb channels H16 Hcs) as [files Hfiles].
  destruct active.
  - rewrite (write_files_cons_active _ _ _ _ _ _ Hactive Hinstr Htrack).
    rewrite Hfiles. cbn [mbind option_bind save_files]. rewrite Hactive.
    cbn [mbind option_bind].
    unfold place. rewrite Hdir, Hinstr. cbn [mbind option_bind].
    unfold dir_name. cbn [String.eqb Ascii.eqb Bool.eqb].
    cbn [mbind option_bind join_value].
    set (folder := join output_dir (drop_last_four name)) in *.
    assert (forall disk1,
              isdir disk1 folder = true ->
              (instrument0 ← Some instrument;
               track0 ← new_tracks st !! c;
               disk' ← save (snd (folder, disk1))
                         (join (fst (folder, disk1))
                            (output_name instrument0 c name))
                         {| file_instrument := instrument0;
                            file_channel := c;
                            file_ticks_per_beat := tpb;
                            file_tracks := [track0] |};
               save_files fs isdir mkdir save join st tpb output_dir name
                 split_dir disk' channels)
              = save_all fs save join folder name disk1
                  ({| file_instrument := instrument; file_channel := c;
                      file_ticks_per_beat := tpb; file_tracks := [track] |}
                   :: files)) as Hstep.
    { intros disk1 Hthere. rewrite Htrack.
      cbn [mbind option_bind fst snd save_all file_instrument file_channel].
      destruct (save disk1 _ _) as [disk2|] eqn:Hsave; [|reflexivity].
      cbn [mbind option_bind].
      rewrite (save_files_by_file_there st tpb output_dir name split_dir
                 channels disk2 Hdir Hkeeps H16 Hcs), Hfiles; [reflexivity|].
      fold folder. rewrite (Hkeeps _ _ _ _ Hsave). assumption. }
    destruct (isdir disk folder) eqn:Hthere; cbn [mbind option_bind].
    + apply Hstep. assumption.
    + destruct (mkdir disk folder) as [disk1|] eqn:Hmk; [|reflexivity].
      cbn [mbind option_bind]. apply Hstep. exact (Hmade _ _ Hmk).
  - rewrite (write_files_cons_inactive _ _ _ _ Hactive).
    cbn [save_files]. rewrite Hactive. cbn [mbind option_bind]. exact IH.
Qed.

End Saved.

(** ** The names *)

Lemma list_ascii_append s1 s2 :
  list_ascii_of_string (s1 ++ s2)%string
  = list_ascii_of_string s1 ++ list_ascii_of_string s2.
Proof.
  induction s1 as [|a s1 IH]; [reflexivity|]. cbn. rewrite IH. reflexivity.
Qed.

Lemma list_ascii_inj s1 s2 :
  list_ascii_of_string s1 = list_ascii_of_string s2 -> s1 = s2.
Proof.
  intros H. rewrite <- (string_of_list_ascii_of_string s1),
    <- (string_of_list_ascii_of_string s2), H. reflexivity.
Qed.

(** Two lists cut at the first [a] agree on both sides of the cut. *)
Lemma split_first (a : ascii) (l1 l2 r1 r2 : list ascii) :
  a ∉ l1 -> a ∉ l2 ->
  l1 ++ a :: r1 = l2 ++ a :: r2 ->
  l1 = l2 /\ r1 = r2.
Proof.
  revert l2. induction l1 as [|x l1 IH]; intros l2 H1 H2 H.
  - destruct l2 as [|y l2]; cbn in H.
    + injection H as <-. split; reflexivity.
    + injection H as <- _. exfalso. apply H2. apply elem_of_cons. tauto.
  - destruct l2 as [|y l2]; cbn in H.
    + injection H as -> _. exfalso. apply H1. apply elem_of_cons. tauto.
    + injection H as <- H.
      apply not_elem_of_cons in H1 as [_ H1].
      apply not_elem_of_cons in H2 as [_ H2].
      destruct (IH l2 H1 H2 H) as [-> ->]. split; reflexivity.
Qed.

Lemma uint_no_underscore d :
  "_"%char ∉ list_ascii_of_string (NilEmpty.string_of_uint d).
Proof.
  induction d; cbn; try apply not_elem_of_nil;
    (apply not_elem_of_cons; split; [discriminate|assumption]).
Qed.

Lemma str_of_Z_no_underscore n :
  "_"%char ∉ list_ascii_of_string (str_of_Z n).
Proof.
  assert (forall d, "_"%char
                    ∉ list_ascii_of_string (NilZero.string_of_uint d)) as Hu.
  { intros d. pose proof (uint_no_underscore d) as H.
    destruct d; try exact H. cbn.
    apply not_elem_of_cons. split; [discriminate|apply not_elem_of_nil]. }
  unfold str_of_Z. destruct (Z.to_int n) as [d|d]; cbn; [apply Hu|].
  apply not_elem_of_cons. split; [discriminate|apply Hu].
Qed.

Lemma to_uint_not_nil p : Pos.to_uint p <> Decimal.Nil.
Proof.
  intros H. pose proof (DecimalPos.Unsigned.of_to p) as Hp.
  rewrite H in Hp. discriminate.
Qed.

Lemma str_of_Z_inj n1 n2 : str_of_Z n1 = str_of_Z n2 -> n1 = n2.
Proof.
  unfold str_of_Z. intros H.
  assert (forall n, Z.to_int n <> Decimal.Pos Decimal.Nil /\
                    Z.to_int n <> Decimal.Neg Decimal.Nil) as Hnn.
  { intros [|p|p]; cbn; split; try discriminate.
    - intros [= Hp]. exact (to_uint_not_nil p Hp).
    - intros [= Hp]. exact (to_uint_not_nil p Hp). }
  apply DecimalZ.to_int_inj.
  apply (f_equal NilZero.int_of_string) in H.
  rewrite !NilZero.isi in H by apply Hnn.
  injection H as H. exact H.
Qed.

Lemma append_inv_tail s1 s2 t : (s1 ++ t = s2 ++ t)%string -> s1 = s2.
Proof.
  intros H. apply list_ascii_inj.
  apply (f_equal list_ascii_of_string) in H.
  rewrite !list_ascii_append in H. exact (app_inv_tail _ _ _ H).
Qed.

(** X11.  The name of a file tells the instrument, the channel and the
    name of the source without its last four characters: two files with
    the same name have all three in common.  So the files of one run, one
    for each channel, have different names. *)
Theorem output_name_inj
    (instrument1 instrument2 : Z) (channel1 channel2 : nat)
    (name1 name2 : string) :
  output_name instrument1 channel1 name1
  = output_name instrument2 channel2 name2 ->
  instrument1 = instrument2 /\ channel1 = channel2 /\
  drop_last_four name1 = drop_last_four name2.
Proof.
  unfold output_name. intros H.
  apply (f_equal list_ascii_of_string) in H.
  rewrite !list_ascii_append in H. cbn [list_ascii_of_string app] in H.
  apply split_first in H as [Hi H]; try apply str_of_Z_no_underscore.
  injection H as H.
  apply split_first in H as [Hc H]; try apply str_of_Z_no_underscore.
  apply list_ascii_inj, str_of_Z_inj in Hi.
  apply list_ascii_inj, str_of_Z_inj, Nat2Z.inj in Hc.
  split; [assumption|]. split; [assumption|].
  apply (append_inv_tail _ _ ".mid"), list_ascii_inj.
  rewrite !list_ascii_append. exact H.
Qed.

Lemma output_name_inj_witness :
  output_name 33 4 "song.mid" = "33_ch4_song.mid" /\
  (33 = 33 /\ 4%nat = 4%nat /\
   drop_last_four "song.mid" = drop_last_four "song.MID").
Proof.
  split; [reflexivity|].
  apply (output_name_inj 33 33 4 4 "song.mid" "song.MID"). reflexivity.
Defined.

(** ** [split_midi] on the disk *)

Lemma seq_below_16 : Forall (fun c => (c < 16)%nat) (seq 0 16).
Proof. apply Forall_forall. intros x Hx. apply elem_of_seq in Hx. lia. Qed.

(** X12.  Without [split_dir] the files of [split_midi] are saved in
    [output_dir], each under its name, one after the other in the order of
    the channels; no folder is looked for or made. *)
Theorem split_midi_saves_flat
    (fs : Type) (isdir : fs -> string -> bool)
    (mkdir : fs -> string -> option fs)
    (save : fs -> string -> output_file -> option fs)
    (join : string -> string -> string)
    (second2tick : Z -> Z -> Z -> option Q)
    (midi : MidiFile.t) (name output_dir : string)
    (trim_silence ignore_meta : bool) (split_dir : option string)
    (cutoff offset : option Z) (disk : fs) :
  truthy_str split_dir = None ->
  split_midi_to_disk fs isdir mkdir save join second2tick midi name
    output_dir trim_silence ignore_meta split_dir cutoff offset disk
  = files ← split_midi second2tick midi trim_silence ignore_meta cutoff
              offset;
    save_all fs save join output_dir name disk files.
Proof.
  intros Hdir. unfold split_midi_to_disk, split_midi.
  destruct (process_tracks _ _ _ _ _ _ init_state (MidiFile.tracks midi))
    as [st|] eqn:Hrun; [|reflexivity].
  cbn [mbind option_bind].
  rewrite process_tracks_concat in Hrun.
  pose proof (process_track_sixteen _ _ _ _ _ _ _ _ _
                init_state_sixteen Hrun) as H16.
  rewrite (proj1 H16).
  apply save_files_flat; [assumption..|apply seq_below_16].
Qed.

Lemma split_midi_saves_flat_witness :
  let midi :=
    {| MidiFile.ticks_per_beat := 96;
       MidiFile.tracks := [[channel_msg "note_on" 9 0;
                            channel_msg "note_on" 1 4]] |} in
  let disk := {| Disk.dirs := ["out"]; Disk.saved := [] |} in
  exists disk',
    split_midi_to_disk Disk.t Disk.isdir Disk.mkdir Disk.save Disk.join
      Mido.second2tick midi "drums.mid" "out" false false (Some "") None None
      disk = Some disk' /\
    fst <$> Disk.saved disk' = ["out/1_ch1_drums.mid"; "out/1_ch9_drums.mid"]
    /\ Disk.dirs disk' = ["out"].
Proof.
  cbv zeta. eexists.
  rewrite (split_midi_saves_flat Disk.t Disk.isdir Disk.mkdir Disk.save
             Disk.join Mido.second2tick _ "drums.mid" "out" false false
             (Some "") None None _ eq_refl).
  split; [vm_compute; reflexivity|]. split; reflexivity.
Defined.

(** X13.  With a [split_dir] other than ["file"], ["instrument"] and
    ["channel"] among them, [split_midi] raises as soon as there is a file
    to write: the folder would be named by an integer, which
    [os.path.join] refuses, or by a key that the dictionary does not have.
    It returns, with the disk as it was, only when no channel is active. *)
Theorem split_dir_other_than_file_raises
    (fs : Type) (isdir : fs -> string -> bool)
    (mkdir : fs -> string -> option fs)
    (save : fs -> string -> output_file -> option fs)
    (join : string -> string -> string)
    (second2tick : Z -> Z -> Z -> option Q)
    (midi : MidiFile.t) (name output_dir : string)
    (trim_silence ignore_meta : bool) (split_dir : option string)
    (key : string) (cutoff offset : option Z) (disk : fs) :
  truthy_str split_dir = Some key -> key <> "file" ->
  split_midi_to_disk fs isdir mkdir save join second2tick midi name
    output_dir trim_silence ignore_meta split_dir cutoff offset disk
  = files ← split_midi second2tick midi trim_silence ignore_meta cutoff
              offset;
    match files with [] => Some disk | _ :: _ => None end.
Proof.
  intros Hdir Hkey. unfold split_midi_to_disk, split_midi.
  destruct (process_tracks _ _ _ _ _ _ init_state (MidiFile.tracks midi))
    as [st|] eqn:Hrun; [|reflexivity].
  cbn [mbind option_bind].
  rewrite process_tracks_concat in Hrun.
  pose proof (process_track_sixteen _ _ _ _ _ _ _ _ _
                init_state_sixteen Hrun) as H16.
  rewrite (proj1 H16).
  eapply save_files_not_by_file; [eassumption..|apply seq_below_16].
Qed.

Lemma split_dir_other_than_file_raises_witness :
  let midi :=
    {| MidiFile.ticks_per_beat := 96;
       MidiFile.tracks := [[channel_msg "note_on" 9 0]] |} in
  let disk := {| Disk.dirs := ["out"]; Disk.saved := [] |} in
  split_midi_to_disk Disk.t Disk.isdir Disk.mkdir Disk.save Disk.join
    Mido.second2tick midi "drums.mid" "out" false false (Some "instrument")
    None None disk = None /\
  split_midi_to_disk Disk.t Disk.isdir Disk.mkdir Disk.save Disk.join
    Mido.second2tick midi "drums.mid" "out" false false (Some "channel")
    None None disk = None.
Proof.
  cbv zeta. split.
  - rewrite (split_dir_other_than_file_raises Disk.t Disk.isdir Disk.mkdir
               Disk.save Disk.join Mido.second2tick _ "drums.mid" "out"
               false false (Some "instrument") "instrument" None None _
               eq_refl); [reflexivity|discriminate].
  - rewrite (split_dir_other_than_file_raises Disk.t Disk.isdir Disk.mkdir
               Disk.save Disk.join Mido.second2tick _ "drums.mid" "out"
               false false (Some "channel") "channel" None None _
               eq_refl); [reflexivity|discriminate].
Defined.

(** X14.  With [split_dir] ["file"] the files of [split_midi] are saved,
    each under its name, in one folder, named in [output_dir] by the name
    of the source without its last four characters.  The folder is made
    once, when it is not there, and only if there is a file to write.
    Assumed of the file system: a folder just made is there, and saving a
    file leaves it there. *)
Theorem split_midi_saves_by_file
    (fs : Type) (isdir : fs -> string -> bool)
    (mkdir : fs -> string -> option fs)
    (save : fs -> string -> output_file -> option fs)
    (join : string -> string -> string)
    (second2tick : Z -> Z -> Z -> option Q)
    (midi : MidiFile.t) (name output_dir : string)
    (trim_silence ignore_meta : bool) (split_dir : option string)
    (cutoff offset : option Z) (disk : fs) :
  truthy_str split_dir = Some "file" ->
  (forall d d', mkdir d (join output_dir (drop_last_four name)) = Some d' ->
     isdir d' (join output_dir (drop_last_four name)) = true) ->
  (forall d path f d', save d path f = Some d' ->
     isdir d' (join output_dir (drop_last_four name))
     = isdir d (join output_dir (drop_last_four name))) ->
  split_midi_to_disk fs isdir mkdir save join second2tick midi name
    output_dir trim_silence ignore_meta split_dir cutoff offset disk
  = files ← split_midi second2tick midi trim_silence ignore_meta cutoff
              offset;
    match files with
    | [] => Some disk
    | _ :: _ =>
        disk' ← (if isdir disk (join output_dir (drop_last_four name))
                 then Some disk
                 else mkdir disk (join output_dir (drop_last_four name)));
        save_all fs save join (join output_dir (drop_last_four name)) name
          disk' files
    end.
Proof.
  intros Hdir Hmade Hkeeps. unfold split_midi_to_disk, split_midi.
  destruct (process_tracks _ _ _ _ _ _ init_state (MidiFile.tracks midi))
    as [st|] eqn:Hrun; [|reflexivity].
  cbn [mbind option_bind].
  rewrite process_tracks_concat in Hrun.
  pose proof (process_track_sixteen _ _ _ _ _ _ _ _ _
                init_state_sixteen Hrun) as H16.
  rewrite (proj1 H16).
  apply save_files_by_file; [assumption..|apply seq_below_16].
Qed.

Lemma disk_mkdir_isdir d path d' :
  Disk.mkdir d path = Some d' -> Disk.isdir d' path = true.
Proof.
  unfold Disk.mkdir. destruct (Disk.isdir d path); [discriminate|].
  intros [= <-]. unfold Disk.isdir. cbn. rewrite String.eqb_refl.
  reflexivity.
Qed.

Lemma disk_save_isdir d path f d' folder :
  Disk.save d path f = Some d' -> Disk.isdir d' folder = Disk.isdir d folder.
Proof. intros [= <-]. reflexivity. Qed.

Lemma split_midi_saves_by_file_witness :
  let midi :=
    {| MidiFile.ticks_per_beat := 96;
       MidiFile.tracks := [[channel_msg "note_on" 9 0;
                            channel_msg "note_on" 1 4]] |} in
  let disk := {| Disk.dirs := ["out"]; Disk.saved := [] |} in
  exists disk',
    split_midi_to_disk Disk.t Disk.isdir Disk.mkdir Disk.save Disk.join
      Mido.second2tick midi "drums.mid" "out" false false (Some "file")
      None None disk = Some disk' /\
    fst <$> Disk.saved disk'
    = ["out/drums/1_ch1_drums.mid"; "out/drums/1_ch9_drums.mid"] /\
    Disk.dirs disk' = ["out/drums"; "out"].
Proof.
  cbv zeta. eexists.
  rewrite (split_midi_saves_by_file Disk.t Disk.isdir Disk.mkdir Disk.save
             Disk.join Mido.second2tick _ "drums.mid" "out" false false
             (Some "file") None None _ eq_refl).
  - split; [vm_compute; reflexivity|]. split; reflexivity.
  - intros d d'. apply disk_mkdir_isdir.
  - intros d path f d'. apply disk_save_isdir.
Defined.
